(** * cell_volume.c: the on-demand volume dump of the spacetoolbox CFD utilities

    A shallow embedding of [on_demand_calc] (cfd_utilities/cell_volume.c).
    The routine is a straight line of calls into the C library and into the
    Fluent mesh interface with two nested loops; it is modelled as a state
    transformer over a [World] that holds the solver's mesh, the file
    system, the table of open streams, the console and the list of calls
    issued so far.  A run either returns or is stopped at the first call
    whose behaviour the C standard leaves undefined. *)

From Stdlib Require Import ZArith NArith Ascii String List Bool Lia.
From Stdlib Require Import DecimalString SpecFloat.
From Stdlib Require DecimalN.
From stdpp Require Import base option gmap strings list.

Local Open Scope string_scope.

(* stdpp keeps [simpl] from unfolding string concatenation; the proofs
   below compute with it. *)
#[local] Arguments String.append : simpl nomatch.

(** ** Text helpers *)

Module Text.

(** The C character '\n'. *)
Definition newline : ascii := ascii_of_nat 10.
Definition nl : string := String newline EmptyString.

Definition is_digit (a : ascii) : bool :=
  (48 <=? nat_of_ascii a)%nat && (nat_of_ascii a <=? 57)%nat.

Fixpoint all_digits (s : string) : bool :=
  match s with
  | EmptyString => true
  | String a r => is_digit a && all_digits r
  end.

(** The rest of [s] after its leading run of decimal digits. *)
Fixpoint skip_digits (s : string) : string :=
  match s with
  | EmptyString => EmptyString
  | String a r => if is_digit a then skip_digits r else s
  end.

(** Number of newline characters, that is, of terminated lines. *)
Fixpoint count_lines (s : string) : nat :=
  match s with
  | EmptyString => 0
  | String a r => (if Ascii.eqb a newline then 1 else 0) + count_lines r
  end.

(** Splits a text at its newline characters: the terminated lines, each
    with its newline, and the unterminated rest. *)
Fixpoint split_lines (s : string) : list string * string :=
  match s with
  | EmptyString => ([], EmptyString)
  | String a r =>
      let '(ls, rest) := split_lines r in
      if Ascii.eqb a newline then (nl :: ls, rest)
      else match ls with
           | [] => ([], String a rest)
           | l :: ls' => (String a l :: ls', rest)
           end
  end.

(** Drops one leading minus sign, when there is one. *)
Definition strip_minus (s : string) : string :=
  match s with
  | String a r => if Ascii.eqb a "-" then r else s
  | EmptyString => EmptyString
  end.

(** Reads exactly [k] decimal digits and returns what follows them. *)
Fixpoint eat_digits (k : nat) (s : string) : option string :=
  match k with
  | O => Some s
  | S k' =>
      match s with
      | String a r => if is_digit a then eat_digits k' r else None
      | EmptyString => None
      end
  end.

(** A line of the shape the routine means to write: an optional minus
    sign, at least one digit, a point, exactly twenty digits, a newline,
    and nothing else. *)
Definition is_f20_line (s : string) : bool :=
  match strip_minus s with
  | String a r =>
      is_digit a &&
      match skip_digits r with
      | String c frac =>
          Ascii.eqb c "." &&
          match eat_digits 20 frac with
          | Some rest => String.eqb rest nl
          | None => false
          end
      | EmptyString => false
      end
  | EmptyString => false
  end.

End Text.

(** ** The [real] type and the [%.20f] conversion *)

Module Real.

(** Modelled from the spec: udf.h, which declares [real], is not in the
    repository; the spec speaks of a floating-point volume per cell.  In
    the double precision solver [real] is [double], and [fprintf] receives
    a double in any case.  A value is a binary64 datum: a signed zero, a
    signed infinity, a NaN with its sign bit (the conversion prints it;
    the payload is not modelled, no call of the routine shows it), or a
    finite number (-1)^s * m * 2^e. *)
Inductive real : Type :=
| R_zero (s : bool)
| R_infinity (s : bool)
| R_nan (s : bool)
| R_finite (s : bool) (m : positive) (e : Z).

(** The value as a specification float of the standard library, which
    has a single NaN. *)
Definition to_spec (x : real) : spec_float :=
  match x with
  | R_zero s => S754_zero s
  | R_infinity s => S754_infinity s
  | R_nan _ => S754_nan
  | R_finite s m e => S754_finite s m e
  end.

Definition prec : Z := 53.
Definition emax : Z := 1024.

(** [vol_tot += volume].  Which NaN an addition produces (its sign, its
    payload) depends on the processor and on how the compiler orders the
    operands, and nothing the routine does shows it: the total is kept as
    a specification float, that is, up to the sign of a NaN. *)
Definition real_add (tot : spec_float) (v : real) : spec_float :=
  SFadd prec emax tot (to_spec v).

Definition real_zero : real := R_zero false.

Definition is_finite (x : real) : bool :=
  match x with
  | R_zero _ | R_finite _ _ _ => true
  | R_infinity _ | R_nan _ => false
  end.

Definition digit_char (d : N) : ascii := ascii_of_N (48 + d).

(** The [k] low-order decimal digits of [n], most significant first, put
    in front of [acc]. *)
Fixpoint dec_fixed (k : nat) (n : N) (acc : string) : string :=
  match k with
  | O => acc
  | S k' => dec_fixed k' (n / 10) (String (digit_char (n mod 10)) acc)
  end.

(** The decimal numeral of [n] with no leading zeros ("0" for zero). *)
Definition dec_int (n : N) : string := NilZero.string_of_uint (N.to_uint n).

(** [m * 2^e * 10^p] rounded to the nearest integer, ties to even: the
    magnitude of a finite value counted in units of the last printed
    digit. *)
Definition scaled (p : nat) (m : positive) (e : Z) : N :=
  let t := (Z.pos m * 10 ^ Z.of_nat p)%Z in
  if (0 <=? e)%Z then Z.to_N (t * 2 ^ e)
  else
    let den := (2 ^ (- e))%Z in
    let q := (t / den)%Z in
    let r := (t mod den)%Z in
    Z.to_N (if (2 * r <? den)%Z then q
            else if (den <? 2 * r)%Z then q + 1
            else if Z.even q then q else q + 1).

Definition sign_text (s : bool) : string := if s then "-" else "".

(** The conversion [%.pf] of the C library applied to a double, for
    [p > 0]: sign, integer part, point and [p] digits for a finite value;
    "inf" and "nan", with a minus sign when the sign bit is set, in the
    style of ISO C 7.21.6.1 otherwise. *)
Definition fmt_f (p : nat) (x : real) : string :=
  match x with
  | R_zero s => sign_text s +:+ "0." +:+ dec_fixed p 0 ""
  | R_infinity s => sign_text s +:+ "inf"
  | R_nan s => sign_text s +:+ "nan"
  | R_finite s m e =>
      let n := scaled p m e in
      let unit := (10 ^ N.of_nat p)%N in
      sign_text s +:+ dec_int (n / unit) +:+ "." +:+ dec_fixed p (n mod unit) ""
  end.

(** The text produced for the format "%.20f\n". *)
Definition format_20f_nl (x : real) : string := fmt_f 20 x +:+ Text.nl.

End Real.

Import Text Real.

(** ** The solver's mesh, as the routine sees it *)

Module Fluent.

(** Modelled from the spec: udf.h and the solver's mesh structures are not
    in the repository.  A cell-collection ("thread") owns an array of cell
    volumes indexed by the cell identifier; a domain is the chain of its
    cell threads. *)
Definition cell_t : Type := nat.

Record Thread : Type := mkThread {
  thread_volume : list real
}.

Definition Domain : Type := list Thread.

(** A [Thread *]: the position of the thread in the chain of its domain,
    which identifies it, and the thread it points to.  The routine only
    reads through it. *)
Record Thread_ptr : Type := mkThread_ptr {
  thread_pos : nat;
  thread_deref : Thread
}.

Record Host : Type := mkHost {
  host_domain : Z -> Domain
}.

(** Number of cells of a thread, the bound of [begin_c_loop]. *)
Definition THREAD_N_ELEMENTS (t : Thread_ptr) : nat :=
  List.length (thread_volume (thread_deref t)).

(** The volumes of all cells of a domain in traversal order. *)
Definition domain_volumes (d : Domain) : list real :=
  List.concat (List.map thread_volume d).

Definition domain_cells (d : Domain) : nat := List.length (domain_volumes d).

End Fluent.

Import Fluent.

(** ** The world the routine runs in *)

(** A [FILE *]: [None] is the null pointer. *)
Definition FILE_ptr : Type := option nat.

(** The calls the routine can issue, with their arguments and, for [fopen],
    the pointer returned. *)
Inductive Event : Type :=
| EvGet_Domain (id : Z)
| EvFopen (path mode : string) (ret : FILE_ptr)
| EvPrintf (text : string)
| EvC_VOLUME (c : cell_t) (t : nat)
| EvFprintf (fp : FILE_ptr) (text : string)
| EvFclose (fp : FILE_ptr).

(** Everything a run can read or change.  [w_trace] and [w_undefined] are
    bookkeeping: the first lists the calls in the order the routine issues
    them, the second is raised by a stream call on a pointer that is null
    or not open.  The C standard gives the run no meaning from that call
    on, and the run stops there (see [Outcome]). *)
Record World : Type := mkWorld {
  w_host : Host;                    (* the solver's mesh data *)
  w_files : gmap string string;     (* file system: path to text content *)
  w_unopenable : gset string;       (* paths that cannot be opened for writing *)
  w_streams : gmap nat string;      (* open output streams: handle to path *)
  w_console : string;               (* text written to stdout *)
  w_trace : list Event;             (* calls issued, oldest first *)
  w_undefined : bool                (* a stream call received an invalid FILE * *)
}.

(** Content of the file at [path], as the text a C program writes to and
    reads from a text stream; a file that does not exist has none. *)
Definition file_content (w : World) (path : string) : string :=
  default "" (w_files w !! path).

Definition log (e : Event) (w : World) : World :=
  mkWorld (w_host w) (w_files w) (w_unopenable w) (w_streams w)
          (w_console w) (w_trace w ++ [e]) (w_undefined w).

Definition set_undefined (w : World) : World :=
  mkWorld (w_host w) (w_files w) (w_unopenable w) (w_streams w)
          (w_console w) (w_trace w) true.

Definition set_files (fs : gmap string string) (w : World) : World :=
  mkWorld (w_host w) fs (w_unopenable w) (w_streams w)
          (w_console w) (w_trace w) (w_undefined w).

Definition set_streams (st : gmap nat string) (w : World) : World :=
  mkWorld (w_host w) (w_files w) (w_unopenable w) st
          (w_console w) (w_trace w) (w_undefined w).

Definition set_console (out : string) (w : World) : World :=
  mkWorld (w_host w) (w_files w) (w_unopenable w) (w_streams w)
          out (w_trace w) (w_undefined w).

Definition set_host (h : Host) (w : World) : World :=
  mkWorld h (w_files w) (w_unopenable w) (w_streams w)
          (w_console w) (w_trace w) (w_undefined w).

(** ** A state monad over the world *)

(** How a computation ends: it returns a value, or it is stopped in a
    call whose behaviour is undefined (on the usual platforms the process
    is killed inside that call) and nothing after that call is run. *)
Inductive Outcome (A : Type) : Type :=
| Returned (a : A)
| Killed.
Arguments Returned {A} a.
Arguments Killed {A}.

(** A computation maps the world to its outcome and to the world at the
    return, or at the call that stopped it. *)
Definition M (A : Type) : Type := World -> Outcome A * World.

#[global] Instance M_ret : MRet M := fun A x w => (Returned x, w).
#[global] Instance M_bind : MBind M :=
  fun A B f m w =>
    match m w with
    | (Returned a, w') => f a w'
    | (Killed, w') => (Killed, w')
    end.

Definition exec {A} (m : M A) (w : World) : World := snd (m w).
Definition eval {A} (m : M A) (w : World) : Outcome A := fst (m w).

(** A call that only changes the world. *)
Definition effect (f : World -> World) : M unit := fun w => (Returned tt, f w).

(** A call whose behaviour is undefined: the run stops in it. *)
Definition undefined_call {A} : M A := fun w => (Killed, set_undefined w).

(** ** The C library calls *)

Module Stdio.

(** Appends [text] to the file behind the stream.  A null pointer or a
    handle that is not open makes the behaviour undefined (ISO C 7.21.3,
    7.1.4): the run stops in the call and the files are as they were. *)
Definition stream_write (fp : FILE_ptr) (text : string) : M unit := fun w =>
  match fp with
  | Some h =>
      match w_streams w !! h with
      | Some path =>
          (Returned tt,
           set_files (<[path := file_content w path +:+ text]> (w_files w)) w)
      | None => undefined_call w
      end
  | None => undefined_call w
  end.

(** Takes the stream out of the table of open streams; undefined, as
    above, for a null pointer or a handle that is not open. *)
Definition stream_close (fp : FILE_ptr) : M unit := fun w =>
  match fp with
  | Some h =>
      match w_streams w !! h with
      | Some _ => (Returned tt, set_streams (delete h (w_streams w)) w)
      | None => undefined_call w
      end
  | None => undefined_call w
  end.

(** [fopen]: only the modes "a" and "w" are modelled.  "a" creates the
    file when it does not exist and keeps its content otherwise; every
    write then goes to the end of the file.  "w" creates or truncates. *)
Definition fopen (path mode : string) : M FILE_ptr := fun w =>
  if decide (path ∈ w_unopenable w)
  then (Returned None, log (EvFopen path mode None) w)
  else if decide (mode = "a") then
    let h := fresh (dom (w_streams w)) in
    (Returned (Some h),
     log (EvFopen path mode (Some h))
       (set_streams (<[h := path]> (w_streams w))
          (set_files (<[path := file_content w path]> (w_files w)) w)))
  else if decide (mode = "w") then
    let h := fresh (dom (w_streams w)) in
    (Returned (Some h),
     log (EvFopen path mode (Some h))
       (set_streams (<[h := path]> (w_streams w))
          (set_files (<[path := ""]> (w_files w)) w)))
  else (Returned None, log (EvFopen path mode None) w).

(** [fprintf(fp, fmt, ...)] with the text the format produces. *)
Definition fprintf (fp : FILE_ptr) (text : string) : M unit :=
  _ ← effect (log (EvFprintf fp text)); stream_write fp text.

(** [printf]: writes to the console. *)
Definition printf (text : string) : M unit :=
  effect (fun w => log (EvPrintf text) (set_console (w_console w +:+ text) w)).

Definition fclose (fp : FILE_ptr) : M unit :=
  _ ← effect (log (EvFclose fp)); stream_close fp.

End Stdio.

(** ** The mesh queries of udf.h *)

Module Udf.

(** Modelled from the spec: "get domain by index". *)
Definition Get_Domain (id : Z) : M Domain := fun w =>
  (Returned (host_domain (w_host w) id), log (EvGet_Domain id) w).

(** Modelled from the spec: "get volume of a cell within a
    cell-collection", a read of the thread's volume array. *)
Definition C_VOLUME (c : cell_t) (t : Thread_ptr) : M real := fun w =>
  (Returned (nth c (thread_volume (thread_deref t)) real_zero),
   log (EvC_VOLUME c (thread_pos t)) w).

(** Modelled from the spec: "enumerate cells of a cell-collection".
    [begin_c_loop(c,t) ... end_c_loop(c,t)] runs the body for
    c = 0, 1, ..., THREAD_N_ELEMENTS(t) - 1; [k] counts the iterations
    left and [acc] carries the locals the body assigns. *)
Fixpoint c_loop_from {L} (k : nat) (c : cell_t)
    (body : cell_t -> L -> M L) (acc : L) : M L :=
  match k with
  | O => mret acc
  | S k' => acc' ← body c acc; c_loop_from k' (S c) body acc'
  end.

Definition begin_c_loop {L} (t : Thread_ptr)
    (body : cell_t -> L -> M L) (acc : L) : M L :=
  c_loop_from (THREAD_N_ELEMENTS t) 0 body acc.

(** Modelled from the spec: "enumerate cell-collections of a domain".
    [thread_loop_c(t,d)] follows the chain of cell threads of [d] from
    its head to the null pointer; [pos] is the position reached. *)
Fixpoint thread_loop_from {L} (pos : nat) (ts : list Thread)
    (body : Thread_ptr -> L -> M L) (acc : L) : M L :=
  match ts with
  | [] => mret acc
  | th :: rest =>
      acc' ← body (mkThread_ptr pos th) acc;
      thread_loop_from (S pos) rest body acc'
  end.

Definition thread_loop_c {L} (d : Domain)
    (body : Thread_ptr -> L -> M L) (acc : L) : M L :=
  thread_loop_from 0 d body acc.

End Udf.

Import Stdio Udf.

(** ** The routine *)

(** The C literal "H:\\volumedata.csv". *)
Definition volume_path : string := "H:\volumedata.csv".

Definition file_created : string := "File created" +:+ nl.
Definition file_closed : string := "File closed" +:+ nl.

(** The locals the loops assign.  [vol_tot] is a [real] in the source; it
    is kept up to the sign of a NaN (see [real_add]). *)
Record Locals : Type := mkLocals {
  volume : real;
  vol_tot : spec_float
}.

(** The body of the inner loop. *)
Definition cell_body (fp : FILE_ptr) (t : Thread_ptr) (c : cell_t)
    (l : Locals) : M Locals :=
  volume ← C_VOLUME c t;                       (* volume = C_VOLUME(c,t); *)
  _ ← fprintf fp (format_20f_nl volume);       (* fprintf(fp,"%.20f\n",volume); *)
  mret (mkLocals volume (real_add (vol_tot l) volume)).  (* vol_tot += volume; *)

(** [DEFINE_ON_DEMAND(on_demand_calc)].  [volume] and [vol_tot] are declared
    without an initialiser: [l0] stands for whatever their storage holds at
    entry.  The result is the value of the locals when the routine returns,
    if it does. *)
Definition on_demand_calc_locals (l0 : Locals) : M Locals :=
  d ← Get_Domain 1;                            (* d = Get_Domain(1); *)
  fp ← fopen volume_path "a";                  (* fp = fopen("H:\\volumedata.csv","a"); *)
  _ ← printf file_created;                     (* printf("File created\n"); *)
  l ← thread_loop_c d (fun t => begin_c_loop t (cell_body fp t)) l0;
  _ ← fclose fp;                               (* fclose(fp); *)
  _ ← printf file_closed;                      (* printf("File closed\n"); *)
  mret l.

(** The routine as the solver calls it: the locals die with the frame. *)
Definition on_demand_calc (l0 : Locals) : M unit :=
  _ ← on_demand_calc_locals l0; mret tt.

(** ** Sample worlds *)

Definition r_one : real := R_finite false 4503599627370496 (-52).
Definition r_two : real := R_finite false 4503599627370496 (-51).
Definition r_three : real := R_finite false 6755399441055744 (-51).
Definition r_half : real := R_finite false 4503599627370496 (-53).

Definition host_of (d : Domain) : Host := mkHost (fun _ => d).

Definition world_of (d : Domain) (files : gmap string string)
    (locked : gset string) : World :=
  mkWorld (host_of d) files locked ∅ "" [] false.

Definition two_threads : Domain :=
  [mkThread [r_one; r_half]; mkThread [r_two]].

Definition one_cell : Domain := [mkThread [r_one]].
Definition one_inf : Domain := [mkThread [R_infinity false]].
Definition no_cells : Domain := [mkThread []; mkThread []].
Definition grouped_a : Domain := [mkThread [r_one; r_two]; mkThread [r_three]].
Definition grouped_b : Domain := [mkThread [r_one]; mkThread [r_two; r_three]].

(** Locals that happen to hold zero at entry, and locals that do not. *)
Definition clean_locals : Locals := mkLocals real_zero (to_spec real_zero).
Definition stale_locals : Locals := mkLocals real_zero (to_spec r_two).

(** ** Observations on a run *)

(** Drops the first [n] characters. *)
Fixpoint string_drop (n : nat) (s : string) : string :=
  match n, s with
  | O, _ => s
  | S n', String _ r => string_drop n' r
  | S _, EmptyString => EmptyString
  end.

(** The text found in the file at [path] in [w'] after the content it had
    in [w]. *)
Definition appended (w w' : World) (path : string) : string :=
  string_drop (String.length (file_content w path)) (file_content w' path).

(** The text written to the console between [w] and [w']. *)
Definition printed (w w' : World) : string :=
  string_drop (String.length (w_console w)) (w_console w').

(** The calls issued between [w] and [w']. *)
Definition issued (w w' : World) : list Event :=
  drop (List.length (w_trace w)) (w_trace w').

(** The lines for a sequence of volumes, one after the other. *)
Fixpoint volume_lines (vs : list real) : string :=
  match vs with
  | [] => ""
  | v :: r => format_20f_nl v +:+ volume_lines r
  end.

(** The cells of a thread, each as (position of the thread, cell). *)
Definition thread_cells (pos : nat) (th : Thread) : list (nat * cell_t) :=
  List.map (pair pos) (seq 0 (List.length (thread_volume th))).

Fixpoint domain_cells_from (pos : nat) (ts : list Thread) : list (nat * cell_t) :=
  match ts with
  | [] => []
  | th :: rest => thread_cells pos th ++ domain_cells_from (S pos) rest
  end.

(** The cells whose volume was read, in the order of the reads. *)
Fixpoint visited (tr : list Event) : list (nat * cell_t) :=
  match tr with
  | [] => []
  | EvC_VOLUME c t :: r => (t, c) :: visited r
  | _ :: r => visited r
  end.

(** The two calls of one pass through the loop body. *)
Definition cell_events (fp : FILE_ptr) (pos : nat) (th : Thread) (c : cell_t) : list Event :=
  [EvC_VOLUME c pos;
   EvFprintf fp (format_20f_nl (nth c (thread_volume th) real_zero))].

Fixpoint loop_events (fp : FILE_ptr) (pos : nat) (ts : list Thread) : list Event :=
  match ts with
  | [] => []
  | th :: rest =>
      List.concat (List.map (cell_events fp pos th)
                     (seq 0 (List.length (thread_volume th))))
      ++ loop_events fp (S pos) rest
  end.

(** The stream calls of a trace that were handed the null pointer. *)
Definition on_null_stream (e : Event) : bool :=
  match e with
  | EvFprintf None _ | EvFclose None => true
  | _ => false
  end.

(** The sum of the emitted volumes, accumulated from zero in the arithmetic
    of [real]: what the spec asks of the total. *)
Definition emitted_sum (vs : list real) : spec_float :=
  fold_left real_add vs (to_spec real_zero).

(** The domain the routine works on. *)
Definition the_domain (w : World) : Domain := host_domain (w_host w) 1.

(** Whether [fopen] will open the output file in [w]. *)
Definition opens (w : World) : Prop := volume_path ∉ w_unopenable w.

#[global] Instance opens_decision (w : World) : Decision (opens w) :=
  not_dec (decide (volume_path ∈ w_unopenable w)).

(** ** The loops, unrolled *)

(** One pass through the loop body: the thread position, the cell and the
    volume read. *)
Definition Visit : Type := (nat * cell_t * real)%type.

Definition thread_visits (pos : nat) (th : Thread) : list Visit :=
  List.map (fun c => (pos, c, nth c (thread_volume th) real_zero))
           (seq 0 (List.length (thread_volume th))).

Fixpoint domain_visits_from (pos : nat) (ts : list Thread) : list Visit :=
  match ts with
  | [] => []
  | th :: rest => thread_visits pos th ++ domain_visits_from (S pos) rest
  end.

Definition visit_events (fp : FILE_ptr) (v : Visit) : list Event :=
  [EvC_VOLUME (snd (fst v)) (fst (fst v)); EvFprintf fp (format_20f_nl (snd v))].

(** One pass through the loop body, for the visit [v]. *)
Definition visit_step (fp : FILE_ptr) (v : Visit) (l : Locals) : M Locals :=
  _ ← effect (log (EvC_VOLUME (snd (fst v)) (fst (fst v))));
  _ ← fprintf fp (format_20f_nl (snd v));
  mret (mkLocals (snd v) (real_add (vol_tot l) (snd v))).

Fixpoint visits_run (fp : FILE_ptr) (vis : list Visit) (l : Locals) : M Locals :=
  match vis with
  | [] => mret l
  | v :: rest => l' ← visit_step fp v l; visits_run fp rest l'
  end.

(** The locals after passes that read the volumes [vs]. *)
Definition locals_after (vs : list real) (l : Locals) : Locals :=
  mkLocals (List.last vs (volume l)) (fold_left real_add vs (vol_tot l)).

(** The world after [text] went to the file at [path] while the calls
    [evs] were issued. *)
Definition wrote (path text : string) (evs : list Event) (w : World) : World :=
  mkWorld (w_host w) (<[path := file_content w path +:+ text]> (w_files w))
          (w_unopenable w) (w_streams w) (w_console w)
          (w_trace w ++ evs) (w_undefined w).

(** The world in which a run was stopped after issuing the calls [evs]. *)
Definition stopped (evs : list Event) (w : World) : World :=
  mkWorld (w_host w) (w_files w) (w_unopenable w) (w_streams w) (w_console w)
          (w_trace w ++ evs) true.

(** The calls of one run, given the pointer [fopen] returned. *)
Definition run_events (fp : FILE_ptr) (d : Domain) : list Event :=
  [EvGet_Domain 1; EvFopen volume_path "a" fp; EvPrintf file_created]
  ++ loop_events fp 0 d
  ++ [EvFclose fp; EvPrintf file_closed].

(** The calls of a run in which [fopen] returns the null pointer: the
    run is stopped in the first stream call it reaches, the [fprintf] for
    the first cell or, without cells, [fclose]. *)
Definition failed_run_events (d : Domain) : list Event :=
  [EvGet_Domain 1; EvFopen volume_path "a" None; EvPrintf file_created]
  ++ match domain_visits_from 0 d with
     | [] => [EvFclose None]
     | v :: _ => visit_events None v
     end.

(** A loop body that only notes the thread it is handed. *)
Definition note_thread (t : Thread_ptr) (seen : list nat) : M (list nat) :=
  mret (seen ++ [thread_pos t])%list.

(** ** Runs in a row, and reading the file back *)

(** One run after the other, each with its own locals at entry. *)
Fixpoint runs (ls : list Locals) (w : World) : World :=
  match ls with
  | [] => w
  | l :: rest => runs rest (exec (on_demand_calc l) w)
  end.

Fixpoint repeat_text (k : nat) (s : string) : string :=
  match k with
  | O => ""
  | S k' => s +:+ repeat_text k' s
  end.

(** The sign bit of a value. *)
Definition sign_of (x : real) : bool :=
  match x with
  | R_zero s | R_infinity s | R_nan s | R_finite s _ _ => s
  end.

(** The magnitude a finite value is printed with, counted in units of
    the twentieth decimal place. *)
Definition units_20 (x : real) : N :=
  match x with
  | R_finite _ m e => scaled 20 m e
  | _ => 0%N
  end.

(** The magnitude [m * 2^e] in the same units, as an exact fraction
    [exact_num / exact_den]. *)
Definition exact_num (m : positive) (e : Z) : Z :=
  (Z.pos m * 10 ^ 20 * 2 ^ Z.max 0 e)%Z.
Definition exact_den (e : Z) : Z := (2 ^ Z.max 0 (- e))%Z.

(** A finite value below half a unit of the twentieth decimal place. *)
Definition is_tiny (x : real) : bool :=
  match x with
  | R_zero _ => true
  | R_finite _ m e => (2 * Z.pos m * 10 ^ 20 <? 2 ^ (- e))%Z
  | _ => false
  end.

Definition zero_line (s : bool) : string :=
  sign_text s +:+ "0.00000000000000000000" +:+ nl.

Definition digit_value (a : ascii) : N := (N_of_ascii a - 48)%N.

(** The number a string of decimal digits denotes, after [acc]. *)
Fixpoint read_digits (s : string) (acc : N) : N :=
  match s with
  | EmptyString => acc
  | String a r => read_digits r (10 * acc + digit_value a)
  end.

(** The leading run of decimal digits of [s]. *)
Fixpoint take_digits (s : string) : string :=
  match s with
  | EmptyString => EmptyString
  | String a r => if is_digit a then String a (take_digits r) else EmptyString
  end.

(** A reader for the lines of the file: the sign and the magnitude, in
    units of the twentieth decimal place, of a line made of an optional
    minus sign, digits, a point, twenty digits and a newline. *)
Definition read_f20 (line : string) : option (bool * N) :=
  let neg := match line with
             | String a _ => Ascii.eqb a "-"
             | EmptyString => false
             end in
  let body := strip_minus line in
  let ip := take_digits body in
  match ip, skip_digits body with
  | String _ _, String c frac =>
      if Ascii.eqb c "." then
        match eat_digits 20 frac with
        | Some rest =>
            if String.eqb rest nl
            then Some (neg, (read_digits ip 0 * 10 ^ 20
                             + read_digits (take_digits frac) 0)%N)
            else None
        | None => None
        end
      else None
  | _, _ => None
  end.

Definition tiny_cells : Domain :=
  [mkThread [R_finite false 1 (-80); R_zero false];
   mkThread [R_finite true 3 (-90)]].

(** Volumes that are not numbers. *)
Definition odd_cells : Domain :=
  [mkThread [R_nan true; R_infinity false]; mkThread [R_nan false]].

(** * Properties *)

(** ** Evaluation on samples *)

Example fmt_one : fmt_f 20 (R_finite false 1 0) = "1.00000000000000000000".
Proof. vm_compute. reflexivity. Qed.

Example fmt_tenth :
  fmt_f 20 (R_finite true 3602879701896397 (-55)) = "-0.10000000000000000555".
Proof. vm_compute. reflexivity. Qed.

Example fmt_line_ok : is_f20_line (format_20f_nl (R_finite false 12345 (-3))) = true.
Proof. vm_compute. reflexivity. Qed.

Example run_two_threads_file :
  file_content (exec (on_demand_calc clean_locals)
                  (world_of two_threads {[volume_path := "x" +:+ nl]} ∅)) volume_path
  = "x" +:+ nl +:+ "1.00000000000000000000" +:+ nl +:+ "0.50000000000000000000" +:+ nl
    +:+ "2.00000000000000000000" +:+ nl.
Proof. vm_compute. reflexivity. Qed.

Example run_two_threads_total :
  eval (on_demand_calc_locals clean_locals) (world_of two_threads ∅ ∅)
  = Returned (mkLocals r_two (S754_finite false 7881299347898368 (-51))).
Proof. vm_compute. reflexivity. Qed.

Example run_locked_stops :
  eval (on_demand_calc clean_locals) (world_of two_threads ∅ {[volume_path]}) = Killed.
Proof. vm_compute. reflexivity. Qed.

Example fmt_negative_nan : format_20f_nl (R_nan true) = "-nan" +:+ nl.
Proof. vm_compute. reflexivity. Qed.

(** ** Strings *)

Lemma sapp_empty_r (s : string) : s +:+ "" = s.
Proof. induction s as [|a s IH]; simpl; [reflexivity | now rewrite IH]. Qed.

Lemma sapp_assoc (a b c : string) : (a +:+ b) +:+ c = a +:+ b +:+ c.
Proof. induction a as [|x a IH]; simpl; [reflexivity | now rewrite IH]. Qed.

Lemma string_drop_app (a b : string) : string_drop (String.length a) (a +:+ b) = b.
Proof. induction a as [|x a IH]; simpl; [now destruct b | exact IH]. Qed.

Lemma count_lines_app (a b : string) :
  count_lines (a +:+ b) = (count_lines a + count_lines b)%nat.
Proof.
  induction a as [|x a IH]; simpl; [reflexivity |].
  rewrite IH. lia.
Qed.

Lemma digit_not_newline (a : ascii) : is_digit a = true -> Ascii.eqb a newline = false.
Proof.
  unfold is_digit. intros H.
  destruct (Ascii.eqb_spec a newline) as [->|]; [discriminate H | reflexivity].
Qed.

Lemma all_digits_no_line (s : string) : all_digits s = true -> count_lines s = 0%nat.
Proof.
  induction s as [|a s IH]; simpl; [reflexivity |].
  intros [Ha Hs]%andb_true_iff. now rewrite (digit_not_newline a Ha), IH.
Qed.

Lemma skip_digits_app (ip : string) (c : ascii) (r : string) :
  all_digits ip = true -> is_digit c = false ->
  skip_digits (ip +:+ String c r) = String c r.
Proof.
  intros Hip Hc. induction ip as [|a ip IH]; simpl in *.
  - now rewrite Hc.
  - apply andb_true_iff in Hip as [Ha Hip]. rewrite Ha. now apply IH.
Qed.

Lemma eat_digits_app (fp rest : string) :
  all_digits fp = true -> eat_digits (String.length fp) (fp +:+ rest) = Some rest.
Proof.
  induction fp as [|a fp IH]; simpl; [reflexivity |].
  intros [Ha Hfp]%andb_true_iff. rewrite Ha. now apply IH.
Qed.

(** A sign, a non-empty integer part, a point, twenty digits and a newline
    make a line of the expected shape. *)
Lemma f20_shape (s : bool) (ip fp : string) :
  ip <> "" -> all_digits ip = true ->
  all_digits fp = true -> String.length fp = 20%nat ->
  is_f20_line (sign_text s +:+ ip +:+ "." +:+ fp +:+ nl) = true.
Proof.
  intros Hne Hip Hfp Hlen.
  destruct ip as [|a ip]; [congruence |]. simpl in Hip.
  apply andb_true_iff in Hip as [Ha Hip].
  assert (Hstrip : strip_minus (sign_text s +:+ String a ip +:+ "." +:+ fp +:+ nl)
                   = String a (ip +:+ "." +:+ fp +:+ nl)).
  { destruct s; simpl; [reflexivity |].
    destruct (Ascii.eqb_spec a "-") as [->|]; [discriminate Ha | reflexivity]. }
  unfold is_f20_line. rewrite Hstrip, Ha, andb_true_l.
  change ("." +:+ fp +:+ nl) with (String "." (fp +:+ nl)).
  rewrite skip_digits_app by (assumption || reflexivity).
  rewrite Ascii.eqb_refl, andb_true_l, <- Hlen, eat_digits_app by assumption.
  apply String.eqb_refl.
Qed.

(** A text without newline, followed by a newline, is the first line of
    whatever it precedes. *)
Lemma split_lines_line (s rest : string) :
  count_lines s = 0%nat ->
  split_lines ((s +:+ nl) +:+ rest)
  = ((s +:+ nl) :: fst (split_lines rest), snd (split_lines rest)).
Proof.
  intros Hs. induction s as [|a s IH]; simpl in *.
  - destruct (split_lines rest); reflexivity.
  - destruct (Ascii.eqb a newline); [discriminate Hs |].
    rewrite IH by exact Hs. reflexivity.
Qed.

(** ** The conversion *)

Lemma digit_char_is_digit (n : N) : is_digit (digit_char (n mod 10)) = true.
Proof.
  assert (H : (n mod 10 < 10)%N) by (apply N.mod_lt; discriminate).
  remember (n mod 10)%N as d eqn:E. clear E n.
  destruct (N.to_nat d) as [|[|[|[|[|[|[|[|[|[|k]]]]]]]]]] eqn:E;
    try lia;
    (apply (f_equal N.of_nat) in E; rewrite N2Nat.id in E; subst d; reflexivity).
Qed.

Lemma dec_fixed_digits (k : nat) (n : N) (acc : string) :
  all_digits acc = true -> all_digits (dec_fixed k n acc) = true.
Proof.
  revert n acc. induction k as [|k IH]; intros n acc Hacc; simpl; [exact Hacc |].
  apply IH. simpl. now rewrite digit_char_is_digit.
Qed.

Lemma dec_fixed_length (k : nat) (n : N) (acc : string) :
  String.length (dec_fixed k n acc) = (k + String.length acc)%nat.
Proof.
  revert n acc. induction k as [|k IH]; intros n acc; simpl; [reflexivity |].
  rewrite IH. simpl. lia.
Qed.

Lemma string_of_uint_digits (d : Decimal.uint) :
  all_digits (NilEmpty.string_of_uint d) = true.
Proof. induction d; simpl; try assumption; reflexivity. Qed.

Lemma dec_int_digits (n : N) : all_digits (dec_int n) = true.
Proof.
  unfold dec_int, NilZero.string_of_uint.
  destruct (N.to_uint n); try apply string_of_uint_digits; reflexivity.
Qed.

Lemma dec_int_nonempty (n : N) : dec_int n <> "".
Proof.
  unfold dec_int, NilZero.string_of_uint.
  destruct (N.to_uint n); simpl; discriminate.
Qed.

(** The conversion of a finite value has the expected shape. *)
Lemma format_finite_shape (x : real) :
  is_finite x = true -> is_f20_line (format_20f_nl x) = true.
Proof.
  destruct x as [s|s|s|s m e]; simpl; try discriminate; intros _.
  - unfold format_20f_nl, fmt_f. rewrite !sapp_assoc.
    change "0." with ("0" +:+ "."). rewrite sapp_assoc.
    apply f20_shape; try reflexivity; discriminate.
  - unfold format_20f_nl, fmt_f. cbv zeta. rewrite !sapp_assoc.
    apply f20_shape.
    + apply dec_int_nonempty.
    + apply dec_int_digits.
    + now apply dec_fixed_digits.
    + now rewrite dec_fixed_length.
Qed.

(** No conversion contains a newline: every call writes one line. *)
Lemma fmt_f_no_line (x : real) : count_lines (fmt_f 20 x) = 0%nat.
Proof.
  destruct x as [s|s|s|s m e]; try (destruct s; reflexivity); try reflexivity.
  unfold fmt_f. cbv zeta. rewrite !count_lines_app.
  rewrite (all_digits_no_line _ (dec_int_digits _)).
  rewrite (all_digits_no_line (dec_fixed _ _ _)) by now apply dec_fixed_digits.
  destruct s; reflexivity.
Qed.

Lemma format_one_line (x : real) : count_lines (format_20f_nl x) = 1%nat.
Proof. unfold format_20f_nl. now rewrite count_lines_app, fmt_f_no_line. Qed.

Lemma count_volume_lines (vs : list real) :
  count_lines (volume_lines vs) = List.length vs.
Proof.
  induction vs as [|v vs IH]; simpl; [reflexivity |].
  now rewrite count_lines_app, format_one_line, IH.
Qed.

Lemma split_volume_lines (vs : list real) :
  split_lines (volume_lines vs) = (List.map format_20f_nl vs, "").
Proof.
  induction vs as [|v vs IH]; simpl; [reflexivity |].
  unfold format_20f_nl at 1.
  rewrite split_lines_line by apply fmt_f_no_line. now rewrite IH.
Qed.

(** ** The loops *)

Lemma bind_returned {A B} (m : M A) (k : A -> M B) (w w' : World) (a : A) :
  m w = (Returned a, w') -> (x ← m; k x) w = k a w'.
Proof. intros E. unfold mbind, M_bind. now rewrite E. Qed.

Lemma bind_killed {A B} (m : M A) (k : A -> M B) (w w' : World) :
  m w = (Killed, w') -> (x ← m; k x) w = (Killed, w').
Proof. intros E. unfold mbind, M_bind. now rewrite E. Qed.

Lemma cell_body_run (fp : FILE_ptr) (t : Thread_ptr) (c : cell_t) (l : Locals) (w : World) :
  cell_body fp t c l w
  = visit_step fp (thread_pos t, c, nth c (thread_volume (thread_deref t)) real_zero) l w.
Proof. reflexivity. Qed.

Lemma c_loop_run (fp : FILE_ptr) (t : Thread_ptr) (k : nat) (c : cell_t)
    (l : Locals) (w : World) :
  c_loop_from k c (cell_body fp t) l w
  = visits_run fp
      (List.map (fun c => (thread_pos t, c, nth c (thread_volume (thread_deref t)) real_zero))
                (seq c k))
      l w.
Proof.
  revert c l w. induction k as [|k IH]; intros c l w; [reflexivity |].
  cbn [c_loop_from seq List.map visits_run]. unfold mbind, M_bind.
  rewrite cell_body_run.
  destruct (visit_step fp _ l w) as [[l'|] w']; [apply IH | reflexivity].
Qed.

Lemma visits_run_app (fp : FILE_ptr) (a b : list Visit) (l : Locals) (w : World) :
  visits_run fp (a ++ b) l w = (l' ← visits_run fp a l; visits_run fp b l') w.
Proof.
  revert l w. induction a as [|v a IH]; intros l w; [reflexivity |].
  cbn [app visits_run]. unfold mbind, M_bind.
  destruct (visit_step fp v l w) as [[l'|] w']; [| reflexivity].
  rewrite IH. reflexivity.
Qed.

Lemma thread_loop_run (fp : FILE_ptr) (ts : list Thread) (pos : nat)
    (l : Locals) (w : World) :
  thread_loop_from pos ts (fun t => begin_c_loop t (cell_body fp t)) l w
  = visits_run fp (domain_visits_from pos ts) l w.
Proof.
  revert pos l w. induction ts as [|th ts IH]; intros pos l w; [reflexivity |].
  cbn [thread_loop_from domain_visits_from]. rewrite visits_run_app.
  unfold mbind, M_bind, begin_c_loop, THREAD_N_ELEMENTS.
  rewrite c_loop_run. cbn [thread_pos thread_deref]. fold (thread_visits pos th).
  destruct (visits_run fp (thread_visits pos th) l w) as [[l'|] w'];
    [apply IH | reflexivity].
Qed.

(** ** The passes of a domain *)

Lemma nth_over_seq {A} (l : list A) (d : A) :
  List.map (fun c => nth c l d) (seq 0 (List.length l)) = l.
Proof.
  induction l as [|a l IH]; [reflexivity |].
  cbn [List.length seq List.map nth]. f_equal.
  rewrite <- seq_shift, List.map_map. exact IH.
Qed.

Lemma thread_visits_volumes (pos : nat) (th : Thread) :
  List.map snd (thread_visits pos th) = thread_volume th.
Proof. unfold thread_visits. rewrite List.map_map. apply nth_over_seq. Qed.

Lemma visits_volumes (ts : list Thread) (pos : nat) :
  List.map snd (domain_visits_from pos ts) = domain_volumes ts.
Proof.
  revert pos. induction ts as [|th ts IH]; intros pos; [reflexivity |].
  cbn [domain_visits_from]. rewrite List.map_app, thread_visits_volumes, IH.
  reflexivity.
Qed.

Lemma visits_cells (ts : list Thread) (pos : nat) :
  List.map fst (domain_visits_from pos ts) = domain_cells_from pos ts.
Proof.
  revert pos. induction ts as [|th ts IH]; intros pos; [reflexivity |].
  cbn [domain_visits_from domain_cells_from]. rewrite List.map_app, IH. f_equal.
  unfold thread_visits, thread_cells. now rewrite List.map_map.
Qed.

Lemma visits_events (fp : FILE_ptr) (ts : list Thread) (pos : nat) :
  List.concat (List.map (visit_events fp) (domain_visits_from pos ts))
  = loop_events fp pos ts.
Proof.
  revert pos. induction ts as [|th ts IH]; intros pos; [reflexivity |].
  cbn [domain_visits_from loop_events].
  rewrite List.map_app, List.concat_app, IH. f_equal.
  unfold thread_visits. now rewrite List.map_map.
Qed.

Lemma visited_app (a b : list Event) :
  visited (a ++ b) = (visited a ++ visited b)%list.
Proof.
  induction a as [|e a IH]; [reflexivity |].
  destruct e; cbn [visited app]; now rewrite IH.
Qed.

Lemma visited_visit_events (fp : FILE_ptr) (vis : list Visit) :
  visited (List.concat (List.map (visit_events fp) vis)) = List.map fst vis.
Proof.
  induction vis as [|[[pos c] v] vis IH]; [reflexivity |].
  cbn [List.map List.concat visit_events app fst snd visited]. now rewrite IH.
Qed.

(** Positions, cells and membership in the list of cells of a domain. *)
Lemma in_domain_cells_from (ts : list Thread) (pos p : nat) (c : cell_t) :
  In (p, c) (domain_cells_from pos ts) <->
  exists th, ts !! (p - pos)%nat = Some th /\ (pos <= p)%nat
             /\ (c < List.length (thread_volume th))%nat.
Proof.
  revert pos. induction ts as [|th ts IH]; intros pos.
  - cbn. split; [tauto | intros (th & H & _); discriminate H].
  - cbn [domain_cells_from]. rewrite in_app_iff, IH. unfold thread_cells.
    rewrite in_map_iff. split.
    + intros [(c' & E & Hc) | (th' & Hl & Hp & Hc)].
      * injection E as -> ->. apply in_seq in Hc. exists th.
        rewrite Nat.sub_diag. repeat split; [lia | lia].
      * exists th'. replace (p - pos)%nat with (S (p - S pos)) by lia.
        repeat split; [exact Hl | lia | exact Hc].
    + intros (th' & Hl & Hp & Hc).
      destruct (decide (p = pos)) as [->|Hne].
      * left. rewrite Nat.sub_diag in Hl. injection Hl as ->.
        exists c. split; [reflexivity | apply in_seq; lia].
      * right. exists th'. replace (p - pos)%nat with (S (p - S pos)) in Hl by lia.
        repeat split; [exact Hl | lia | exact Hc].
Qed.

Lemma NoDup_domain_cells_from (ts : list Thread) (pos : nat) :
  NoDup (domain_cells_from pos ts).
Proof.
  revert pos. induction ts as [|th ts IH]; intros pos; [constructor |].
  cbn [domain_cells_from]. apply NoDup_app. split; [| split].
  - unfold thread_cells. apply (NoDup_fmap_2 (pair pos)), NoDup_seq.
  - intros [p c] H1 H2. apply list_elem_of_In in H1, H2.
    apply in_map_iff in H1 as (c' & E & _). injection E as <- _.
    apply in_domain_cells_from in H2 as (_ & _ & Hp & _). lia.
  - apply IH.
Qed.

Lemma length_domain_cells_from (ts : list Thread) (pos : nat) :
  List.length (domain_cells_from pos ts) = domain_cells ts.
Proof.
  rewrite <- visits_cells, List.length_map.
  rewrite <- (List.length_map snd), visits_volumes. reflexivity.
Qed.

(** ** Writing through an open stream, and through the null pointer *)

Lemma wrote_nothing (path : string) (w : World) :
  is_Some (w_files w !! path) -> wrote path "" [] w = w.
Proof.
  intros [c Hc]. destruct w as [h fs un st co tr ub]. unfold wrote, file_content.
  cbn in *. rewrite Hc. cbn. rewrite sapp_empty_r, (insert_id fs path c Hc).
  now rewrite List.app_nil_r.
Qed.

Lemma wrote_wrote (path t1 t2 : string) (e1 e2 : list Event) (w : World) :
  wrote path t2 e2 (wrote path t1 e1 w) = wrote path (t1 +:+ t2) (e1 ++ e2) w.
Proof.
  unfold wrote, file_content. cbn.
  rewrite lookup_insert_eq, insert_insert_eq. cbn.
  now rewrite sapp_assoc, <- List.app_assoc.
Qed.

Lemma last_cons {A} (a : A) (l : list A) (d : A) :
  List.last (a :: l) d = List.last l a.
Proof.
  revert a d. induction l as [|b l IH]; intros a d; [reflexivity |].
  change (List.last (a :: b :: l) d) with (List.last (b :: l) d).
  now rewrite !IH.
Qed.

Lemma locals_after_cons (v : real) (vs : list real) (l : Locals) :
  locals_after vs (mkLocals v (real_add (vol_tot l) v)) = locals_after (v :: vs) l.
Proof. unfold locals_after. cbn [volume vol_tot fold_left]. now rewrite last_cons. Qed.

(** A pass on an open stream returns and leaves one more line. *)
Lemma visit_step_open (h : nat) (path : string) (l : Locals) (w : World) (v : Visit) :
  w_streams w !! h = Some path ->
  visit_step (Some h) v l w
  = (Returned (mkLocals v.2 (real_add (vol_tot l) v.2)),
     wrote path (format_20f_nl v.2) (visit_events (Some h) v) w).
Proof.
  intros Hs.
  unfold visit_step, fprintf, effect, stream_write, mbind, M_bind, mret, M_ret.
  cbn. rewrite Hs. unfold wrote, visit_events, log, set_files. cbn.
  now rewrite <- List.app_assoc.
Qed.

Lemma visits_run_open (h : nat) (path : string) (vis : list Visit) (l : Locals) (w : World) :
  w_streams w !! h = Some path -> is_Some (w_files w !! path) ->
  visits_run (Some h) vis l w
  = (Returned (locals_after (List.map snd vis) l),
     wrote path (volume_lines (List.map snd vis))
       (List.concat (List.map (visit_events (Some h)) vis)) w).
Proof.
  revert l w. induction vis as [|v vis IH]; intros l w Hs Hf.
  - cbn. rewrite (wrote_nothing path w Hf). now destruct l.
  - cbn [visits_run List.map List.concat volume_lines].
    rewrite (bind_returned _ _ _ _ _ (visit_step_open h path l w v Hs)).
    rewrite IH.
    + now rewrite wrote_wrote, locals_after_cons.
    + exact Hs.
    + cbn. rewrite lookup_insert_eq. eauto.
Qed.

(** A pass on the null pointer reads the volume and is stopped in
    [fprintf]. *)
Lemma visit_step_null (l : Locals) (w : World) (v : Visit) :
  visit_step None v l w = (Killed, stopped (visit_events None v) w).
Proof.
  unfold visit_step, fprintf, effect, stream_write, undefined_call,
    mbind, M_bind, mret, M_ret.
  cbn. unfold stopped, visit_events, log, set_undefined. cbn.
  now rewrite <- List.app_assoc.
Qed.

Lemma visits_run_null (vis : list Visit) (l : Locals) (w : World) :
  visits_run None vis l w
  = match vis with
    | [] => (Returned l, w)
    | v :: _ => (Killed, stopped (visit_events None v) w)
    end.
Proof.
  destruct vis as [|v vis]; [reflexivity |].
  cbn [visits_run]. apply bind_killed, visit_step_null.
Qed.

(** ** One run of the routine *)

Lemma fopen_a_opens (path : string) (w : World) :
  path ∉ w_unopenable w ->
  fopen path "a" w
  = (Returned (Some (fresh (dom (w_streams w)))),
     log (EvFopen path "a" (Some (fresh (dom (w_streams w)))))
       (set_streams (<[fresh (dom (w_streams w)) := path]> (w_streams w))
          (set_files (<[path := file_content w path]> (w_files w)) w))).
Proof.
  intros H. unfold fopen. rewrite decide_False by exact H.
  rewrite decide_True by reflexivity. reflexivity.
Qed.

Lemma fopen_fails (path mode : string) (w : World) :
  path ∈ w_unopenable w ->
  fopen path mode w = (Returned None, log (EvFopen path mode None) w).
Proof. intros H. unfold fopen. now rewrite decide_True by exact H. Qed.

Lemma fresh_stream_free (w : World) : w_streams w !! fresh (dom (w_streams w)) = None.
Proof. apply not_elem_of_dom, is_fresh. Qed.

Lemma opens_dec (w : World) : {opens w} + {~ opens w}.
Proof. exact (decide (opens w)). Qed.

(** A run in which the file opens returns, with these locals and this
    world. *)
Lemma run_opens_full (l0 : Locals) (w : World) :
  opens w ->
  on_demand_calc_locals l0 w
  = (Returned (locals_after (domain_volumes (the_domain w)) l0),
     mkWorld (w_host w)
       (<[volume_path := file_content w volume_path
                         +:+ volume_lines (domain_volumes (the_domain w))]> (w_files w))
       (w_unopenable w) (w_streams w)
       (w_console w +:+ file_created +:+ file_closed)
       (w_trace w ++ run_events (Some (fresh (dom (w_streams w)))) (the_domain w))
       (w_undefined w)).
Proof.
  intros Hop. unfold on_demand_calc_locals.
  set (w1 := log (EvGet_Domain 1) w).
  rewrite (bind_returned _ _ w w1 (the_domain w)) by reflexivity.
  assert (E2 := fopen_a_opens volume_path w1 Hop).
  set (h := fresh (dom (w_streams w))) in *.
  change (fresh (dom (w_streams w1))) with h in E2.
  rewrite (bind_returned _ _ _ _ _ E2).
  match goal with
  | |- (_ ← printf file_created; _) ?w2 = _ =>
      set (w3 := log (EvPrintf file_created)
                   (set_console (w_console w2 +:+ file_created) w2));
      rewrite (bind_returned _ _ w2 w3 tt) by reflexivity
  end.
  assert (H3s : w_streams w3 !! h = Some volume_path)
    by (cbn; apply lookup_insert_eq).
  assert (H3f : is_Some (w_files w3 !! volume_path))
    by (cbn; rewrite lookup_insert_eq; eauto).
  unfold thread_loop_c.
  rewrite (bind_returned _ _ w3 _ _
             (eq_trans (thread_loop_run (Some h) (the_domain w) 0 l0 w3)
                       (visits_run_open h volume_path _ l0 w3 H3s H3f))).
  rewrite visits_volumes, visits_events.
  unfold fclose, printf, effect, stream_close, mbind, M_bind, mret, M_ret,
    wrote, log, set_streams, set_console, file_content.
  cbn. rewrite !lookup_insert_eq. cbn.
  rewrite insert_insert_eq, delete_insert_eq.
  rewrite (delete_id _ _ (fresh_stream_free w)).
  fold (file_content w volume_path). fold h.
  f_equal. f_equal.
  - now rewrite sapp_assoc.
  - unfold run_events. rewrite <- !List.app_assoc. reflexivity.
Qed.

(** A run in which the file does not open is stopped in the first stream
    call on the null pointer. *)
Lemma run_fails_full (l0 : Locals) (w : World) :
  ~ opens w ->
  on_demand_calc_locals l0 w
  = (Killed,
     mkWorld (w_host w) (w_files w) (w_unopenable w) (w_streams w)
       (w_console w +:+ file_created)
       (w_trace w ++ failed_run_events (the_domain w))
       true).
Proof.
  intros Hno. unfold on_demand_calc_locals.
  set (w1 := log (EvGet_Domain 1) w).
  rewrite (bind_returned _ _ w w1 (the_domain w)) by reflexivity.
  assert (Hin : volume_path ∈ w_unopenable w1).
  { unfold opens in Hno. destruct (decide (volume_path ∈ w_unopenable w)); tauto. }
  rewrite (bind_returned _ _ _ _ _ (fopen_fails volume_path "a" w1 Hin)).
  match goal with
  | |- (_ ← printf file_created; _) ?w2 = _ =>
      set (w3 := log (EvPrintf file_created)
                   (set_console (w_console w2 +:+ file_created) w2));
      rewrite (bind_returned _ _ w2 w3 tt) by reflexivity
  end.
  unfold thread_loop_c, failed_run_events.
  pose proof (eq_trans (thread_loop_run None (the_domain w) 0 l0 w3)
                (visits_run_null (domain_visits_from 0 (the_domain w)) l0 w3)) as E.
  destruct (domain_visits_from 0 (the_domain w)) as [|v vis].
  - rewrite (bind_returned _ _ _ _ _ E).
    unfold fclose, effect, stream_close, undefined_call, mbind, M_bind,
      log, set_undefined.
    cbn. f_equal. f_equal. rewrite <- !List.app_assoc. reflexivity.
  - rewrite (bind_killed _ _ _ _ E).
    unfold stopped, log, set_console. cbn. f_equal. f_equal.
    rewrite <- !List.app_assoc. reflexivity.
Qed.

Lemma run_opens (l0 : Locals) (w : World) :
  opens w ->
  exec (on_demand_calc_locals l0) w
  = mkWorld (w_host w)
      (<[volume_path := file_content w volume_path
                        +:+ volume_lines (domain_volumes (the_domain w))]> (w_files w))
      (w_unopenable w) (w_streams w)
      (w_console w +:+ file_created +:+ file_closed)
      (w_trace w ++ run_events (Some (fresh (dom (w_streams w)))) (the_domain w))
      (w_undefined w).
Proof. intros H. unfold exec. now rewrite (run_opens_full l0 w H). Qed.

Lemma run_fails (l0 : Locals) (w : World) :
  ~ opens w ->
  exec (on_demand_calc_locals l0) w
  = mkWorld (w_host w) (w_files w) (w_unopenable w) (w_streams w)
      (w_console w +:+ file_created)
      (w_trace w ++ failed_run_events (the_domain w))
      true.
Proof. intros H. unfold exec. now rewrite (run_fails_full l0 w H). Qed.

Lemma exec_on_demand_calc (l0 : Locals) (w : World) :
  exec (on_demand_calc l0) w = exec (on_demand_calc_locals l0) w.
Proof.
  unfold exec, on_demand_calc, mbind, M_bind.
  now destruct (on_demand_calc_locals l0 w) as [[l|] w'].
Qed.

Lemma eval_on_demand_calc_opens (l0 : Locals) (w : World) :
  opens w -> on_demand_calc l0 w = (Returned tt, exec (on_demand_calc l0) w).
Proof.
  intros H. unfold exec, on_demand_calc, mbind, M_bind.
  now rewrite (run_opens_full l0 w H).
Qed.

Lemma eval_on_demand_calc_fails (l0 : Locals) (w : World) :
  ~ opens w -> on_demand_calc l0 w = (Killed, exec (on_demand_calc l0) w).
Proof.
  intros H. unfold exec, on_demand_calc, mbind, M_bind.
  now rewrite (run_fails_full l0 w H).
Qed.

(** ** What a run leaves behind *)

Lemma string_drop_all (a : string) : string_drop (String.length a) a = "".
Proof. rewrite <- (sapp_empty_r a) at 2. apply string_drop_app. Qed.

Lemma prefix_app (a b : string) : String.prefix a (a +:+ b) = true.
Proof.
  induction a as [|x a IH]; cbn; [now destruct b |].
  destruct (ascii_dec x x); [exact IH | congruence].
Qed.

Lemma run_content_opens (l0 : Locals) (w : World) :
  opens w ->
  file_content (exec (on_demand_calc l0) w) volume_path
  = file_content w volume_path +:+ volume_lines (domain_volumes (the_domain w)).
Proof.
  intros H. rewrite exec_on_demand_calc, (run_opens l0 w H).
  unfold file_content at 1. cbn. now rewrite lookup_insert_eq.
Qed.

Lemma run_appended_opens (l0 : Locals) (w : World) :
  opens w ->
  appended w (exec (on_demand_calc l0) w) volume_path
  = volume_lines (domain_volumes (the_domain w)).
Proof.
  intros H. unfold appended. rewrite (run_content_opens l0 w H).
  apply string_drop_app.
Qed.

Lemma run_files_fails (l0 : Locals) (w : World) :
  ~ opens w -> w_files (exec (on_demand_calc l0) w) = w_files w.
Proof. intros H. now rewrite exec_on_demand_calc, (run_fails l0 w H). Qed.

Lemma run_appended_fails (l0 : Locals) (w : World) :
  ~ opens w -> appended w (exec (on_demand_calc l0) w) volume_path = "".
Proof.
  intros H. unfold appended, file_content. rewrite (run_files_fails l0 w H).
  apply string_drop_all.
Qed.

(** Both outcomes of [fopen], each rewritten with the world it leads to. *)
Ltac by_outcome l0 w :=
  rewrite ?exec_on_demand_calc;
  let H := fresh "Hopen" in
  destruct (opens_dec w) as [H|H];
  [rewrite (run_opens l0 w H) | rewrite (run_fails l0 w H)].

Lemma run_console_opens (l0 : Locals) (w : World) :
  opens w ->
  w_console (exec (on_demand_calc l0) w) = w_console w +:+ file_created +:+ file_closed.
Proof. intros H. now rewrite exec_on_demand_calc, (run_opens l0 w H). Qed.

Lemma run_printed_opens (l0 : Locals) (w : World) :
  opens w -> printed w (exec (on_demand_calc l0) w) = file_created +:+ file_closed.
Proof. intros H. unfold printed. rewrite (run_console_opens l0 w H). apply string_drop_app. Qed.

Lemma run_printed_fails (l0 : Locals) (w : World) :
  ~ opens w -> printed w (exec (on_demand_calc l0) w) = file_created.
Proof.
  intros H. unfold printed. rewrite exec_on_demand_calc, (run_fails l0 w H).
  apply string_drop_app.
Qed.

Lemma run_issued_opens (l0 : Locals) (w : World) :
  opens w ->
  issued w (exec (on_demand_calc l0) w)
  = run_events (Some (fresh (dom (w_streams w)))) (the_domain w).
Proof.
  intros H. unfold issued. rewrite exec_on_demand_calc, (run_opens l0 w H).
  cbn [w_trace]. apply drop_app_length.
Qed.

Lemma run_issued_fails (l0 : Locals) (w : World) :
  ~ opens w ->
  issued w (exec (on_demand_calc l0) w) = failed_run_events (the_domain w).
Proof.
  intros H. unfold issued. rewrite exec_on_demand_calc, (run_fails l0 w H).
  cbn [w_trace]. apply drop_app_length.
Qed.

Lemma run_host (l0 : Locals) (w : World) :
  w_host (exec (on_demand_calc l0) w) = w_host w.
Proof. by_outcome l0 w; reflexivity. Qed.

Lemma run_unopenable (l0 : Locals) (w : World) :
  w_unopenable (exec (on_demand_calc l0) w) = w_unopenable w.
Proof. by_outcome l0 w; reflexivity. Qed.

Lemma run_streams (l0 : Locals) (w : World) :
  w_streams (exec (on_demand_calc l0) w) = w_streams w.
Proof. by_outcome l0 w; reflexivity. Qed.

Lemma run_other_files (l0 : Locals) (w : World) (p : string) :
  p <> volume_path -> w_files (exec (on_demand_calc l0) w) !! p = w_files w !! p.
Proof.
  intros Hp. by_outcome l0 w; cbn [w_files]; [now apply lookup_insert_ne | reflexivity].
Qed.

Lemma visited_run_events (fp : FILE_ptr) (d : Domain) :
  visited (run_events fp d) = domain_cells_from 0 d.
Proof.
  unfold run_events. rewrite !visited_app. cbn [visited].
  rewrite <- visits_events, visited_visit_events, visits_cells.
  now rewrite List.app_nil_r.
Qed.

(** The last call of a run that is stopped, and the only one on the null
    pointer. *)
Lemma failed_run_last (d : Domain) :
  List.last (failed_run_events d) (EvGet_Domain 1)
  = match domain_volumes d with
    | [] => EvFclose None
    | v :: _ => EvFprintf None (format_20f_nl v)
    end.
Proof.
  unfold failed_run_events. rewrite <- (visits_volumes d 0).
  destruct (domain_visits_from 0 d) as [|v vis]; reflexivity.
Qed.

Lemma failed_run_null_calls (d : Domain) :
  List.filter on_null_stream (failed_run_events d)
  = [List.last (failed_run_events d) (EvGet_Domain 1)].
Proof.
  unfold failed_run_events.
  destruct (domain_visits_from 0 d) as [|v vis]; reflexivity.
Qed.

(** The thread loop hands its body each position of the chain once, in
    order. *)
Lemma thread_loop_positions (ts : list Thread) (pos : nat) (seen : list nat) (w : World) :
  thread_loop_from pos ts note_thread seen w
  = (Returned (seen ++ seq pos (List.length ts))%list, w).
Proof.
  revert pos seen. induction ts as [|th ts IH]; intros pos seen.
  - cbn. now rewrite List.app_nil_r.
  - cbn [thread_loop_from List.length seq].
    rewrite (bind_returned _ _ w w (seen ++ [pos])%list) by reflexivity.
    rewrite IH, <- List.app_assoc. reflexivity.
Qed.

(** * The properties of the specification *)

(** C1 (as amended).  For every domain with N cells whose volumes are all
    finite, in any number of cell-collections, one invocation in which the
    output file opens appends exactly N lines to it: the appended text is
    the renderings of the cell volumes in traversal order and nothing else
    (no header, footer, total or delimiter), and each of its lines has an
    optional sign, an integer part, a point, exactly 20 digits and a
    newline. *)
Theorem C1_lines_appended (l0 : Locals) (w : World) :
  opens w ->
  Forall (fun v => is_finite v = true) (domain_volumes (the_domain w)) ->
  let w' := exec (on_demand_calc l0) w in
  let out := appended w w' volume_path in
  file_content w' volume_path = file_content w volume_path +:+ out /\
  out = volume_lines (domain_volumes (the_domain w)) /\
  count_lines out = domain_cells (the_domain w) /\
  split_lines out = (List.map format_20f_nl (domain_volumes (the_domain w)), "") /\
  Forall (fun line => is_f20_line line = true) (split_lines out).1.
Proof.
  intros Hop Hfin w' out.
  assert (Eout : out = volume_lines (domain_volumes (the_domain w)))
    by apply (run_appended_opens l0 w Hop).
  repeat split.
  - rewrite Eout. apply (run_content_opens l0 w Hop).
  - exact Eout.
  - rewrite Eout. apply count_volume_lines.
  - rewrite Eout. apply split_volume_lines.
  - rewrite Eout, split_volume_lines. cbn [fst].
    apply Forall_fmap. eapply Forall_impl; [exact Hfin |].
    intros v Hv. now apply format_finite_shape.
Qed.

Lemma C1_lines_appended_witness :
  let w := world_of two_threads {[volume_path := "x" +:+ nl]} ∅ in
  let out := appended w (exec (on_demand_calc clean_locals) w) volume_path in
  count_lines out = 3%nat /\
  Forall (fun line => is_f20_line line = true) (split_lines out).1.
Proof.
  intros w out.
  assert (Hop : opens w) by apply not_elem_of_empty.
  assert (Hfin : Forall (fun v => is_finite v = true) (domain_volumes (the_domain w)))
    by (repeat constructor).
  destruct (C1_lines_appended clean_locals w Hop Hfin) as (_ & _ & Hn & _ & Hl).
  split; [exact Hn | exact Hl].
Defined.

(** C1 as stated fails on a cell whose volume is not finite: the line
    written for an infinite volume is "inf", which has no fractional
    digits. *)
Lemma C1_counterexample :
  let w := world_of one_inf ∅ ∅ in
  let out := appended w (exec (on_demand_calc clean_locals) w) volume_path in
  opens w /\ domain_cells (the_domain w) = 1%nat /\
  out = "inf" +:+ nl /\
  ~ Forall (fun line => is_f20_line line = true) (split_lines out).1.
Proof.
  assert (E : appended (world_of one_inf ∅ ∅)
                (exec (on_demand_calc clean_locals) (world_of one_inf ∅ ∅)) volume_path
              = "inf" +:+ nl) by (vm_compute; reflexivity).
  cbv zeta. rewrite E. repeat split.
  - apply not_elem_of_empty.
  - intros H. vm_compute in H. inversion H as [|? ? Hline _]. discriminate Hline.
Qed.

(** C2, at the failing input.  [vol_tot] is never set before the loop adds
    to it: with one cell of volume 1 and storage that held 2 at entry, the
    total at the end is 3, while the sum of the emitted volumes is 1. *)
Theorem C2_total_keeps_entry_value :
  let w := world_of one_cell ∅ ∅ in
  domain_volumes (the_domain w) = [r_one] /\
  appended w (exec (on_demand_calc stale_locals) w) volume_path
  = "1.00000000000000000000" +:+ nl /\
  emitted_sum (domain_volumes (the_domain w)) = to_spec r_one /\
  eval (on_demand_calc_locals stale_locals) w
  = Returned (mkLocals r_one (to_spec r_three)) /\
  to_spec r_three <> to_spec r_one.
Proof.
  cbv zeta. repeat split; try (vm_compute; reflexivity).
  discriminate.
Qed.

(** C3 (as amended).  When [fopen] fails the routine tests nothing and
    reports nothing: after printing "File created" it hands the null
    pointer to the next stream call it reaches, the [fprintf] for the
    first cell or, for a domain without cells, [fclose].  The behaviour
    of that call is undefined and the run is stopped in it: it is the
    last call issued and the only one on the null pointer, the routine
    does not return, and the files are as they were. *)
Theorem C3_failed_open_not_checked (l0 : Locals) (w : World) :
  ~ opens w ->
  let w' := exec (on_demand_calc l0) w in
  on_demand_calc l0 w = (Killed, w') /\
  firstn 3 (issued w w')
  = [EvGet_Domain 1; EvFopen volume_path "a" None; EvPrintf file_created] /\
  List.last (issued w w') (EvGet_Domain 1)
  = match domain_volumes (the_domain w) with
    | [] => EvFclose None
    | v :: _ => EvFprintf None (format_20f_nl v)
    end /\
  List.filter on_null_stream (issued w w') = [List.last (issued w w') (EvGet_Domain 1)] /\
  issued w w' = failed_run_events (the_domain w) /\
  w_files w' = w_files w /\
  w_undefined w' = true.
Proof.
  intros Hno w'.
  assert (Ei : issued w w' = failed_run_events (the_domain w))
    by apply (run_issued_fails l0 w Hno).
  rewrite Ei. repeat split.
  - apply (eval_on_demand_calc_fails l0 w Hno).
  - apply failed_run_last.
  - apply failed_run_null_calls.
  - apply (run_files_fails l0 w Hno).
  - unfold w'. now rewrite exec_on_demand_calc, (run_fails l0 w Hno).
Qed.

Lemma C3_failed_open_not_checked_witness :
  let w := world_of two_threads ∅ {[volume_path]} in
  let w' := exec (on_demand_calc clean_locals) w in
  List.last (issued w w') (EvGet_Domain 1)
  = EvFprintf None ("1.00000000000000000000" +:+ nl) /\
  w_undefined w' = true.
Proof.
  intros w w'.
  assert (Hno : ~ opens w) by (intros H; apply H; cbn; set_solver).
  destruct (C3_failed_open_not_checked clean_locals w Hno) as (_ & _ & Hl & _ & _ & _ & Hu).
  split; [exact Hl | exact Hu].
Defined.

(** C3 as stated fails on a domain with cells: the run is stopped in the
    [fprintf] for the first cell, so a single call is made on the null
    pointer; the writes for the other cells and the final [fclose] are
    never reached. *)
Lemma C3_counterexample :
  let w := world_of two_threads ∅ {[volume_path]} in
  let w' := exec (on_demand_calc clean_locals) w in
  ~ opens w /\ domain_cells (the_domain w) = 3%nat /\
  on_demand_calc clean_locals w = (Killed, w') /\
  List.length (List.filter on_null_stream (issued w w')) = 1%nat /\
  ~ In (EvFclose None) (issued w w').
Proof.
  cbv zeta. repeat split.
  - intros H. apply H. cbn. set_solver.
  - vm_compute. intros H. decompose [or] H; discriminate || assumption.
Qed.

(** C4.  The routine appends: whatever the file held before a run is a
    prefix of what it holds after, and two runs in a row over the same
    domain add twice the lines one run adds. *)
Theorem C4_appends_not_overwrites (l0 l1 : Locals) (w : World) :
  let w1 := exec (on_demand_calc l0) w in
  let w2 := exec (on_demand_calc l1) w1 in
  String.prefix (file_content w volume_path) (file_content w1 volume_path) = true /\
  file_content w1 volume_path
  = file_content w volume_path +:+ appended w w1 volume_path /\
  the_domain w1 = the_domain w /\
  file_content w2 volume_path
  = file_content w volume_path +:+ appended w w1 volume_path +:+ appended w1 w2 volume_path /\
  count_lines (appended w w2 volume_path)
  = (2 * count_lines (appended w w1 volume_path))%nat.
Proof.
  intros w1 w2.
  assert (Hd : the_domain w1 = the_domain w)
    by (unfold the_domain, w1; now rewrite run_host).
  assert (E1 : file_content w1 volume_path
               = file_content w volume_path +:+ appended w w1 volume_path).
  { destruct (opens_dec w) as [H|H].
    - unfold w1. now rewrite (run_appended_opens l0 w H), (run_content_opens l0 w H).
    - unfold w1. rewrite (run_appended_fails l0 w H), sapp_empty_r.
      unfold file_content. now rewrite (run_files_fails l0 w H). }
  assert (E12 : appended w1 w2 volume_path = appended w w1 volume_path).
  { destruct (opens_dec w) as [H|H].
    - assert (H1 : opens w1) by (unfold opens, w1; now rewrite run_unopenable).
      unfold w2. rewrite (run_appended_opens l1 w1 H1), Hd.
      unfold w1. now rewrite (run_appended_opens l0 w H).
    - assert (H1 : ~ opens w1) by (unfold opens, w1; now rewrite run_unopenable).
      unfold w2. rewrite (run_appended_fails l1 w1 H1).
      unfold w1. now rewrite (run_appended_fails l0 w H). }
  assert (E2 : file_content w2 volume_path
               = file_content w1 volume_path +:+ appended w1 w2 volume_path).
  { destruct (opens_dec w1) as [H|H].
    - unfold w2. now rewrite (run_appended_opens l1 w1 H), (run_content_opens l1 w1 H).
    - unfold w2. rewrite (run_appended_fails l1 w1 H), sapp_empty_r.
      unfold file_content. now rewrite (run_files_fails l1 w1 H). }
  repeat split.
  - rewrite E1. apply prefix_app.
  - exact E1.
  - exact Hd.
  - now rewrite E2, E1, sapp_assoc.
  - unfold appended at 1. rewrite E2, E1, sapp_assoc, string_drop_app.
    rewrite count_lines_app, E12. lia.
Qed.

(** C5.  For a domain without cells, a run in which the file opens issues
    [fopen] and then [fclose] on the stream it got, with no write in
    between: nothing is appended, the content of the file is what it was
    (an absent file now exists, empty), and no stream stays open. *)
Theorem C5_no_cells_no_lines (l0 : Locals) (w : World) :
  opens w ->
  domain_cells (the_domain w) = 0%nat ->
  let w' := exec (on_demand_calc l0) w in
  let fp := Some (fresh (dom (w_streams w))) in
  issued w w'
  = [EvGet_Domain 1; EvFopen volume_path "a" fp; EvPrintf file_created;
     EvFclose fp; EvPrintf file_closed] /\
  appended w w' volume_path = "" /\
  count_lines (appended w w' volume_path) = 0%nat /\
  file_content w' volume_path = file_content w volume_path /\
  w_files w' = <[volume_path := file_content w volume_path]> (w_files w) /\
  w_streams w' = w_streams w /\
  w_undefined w' = w_undefined w.
Proof.
  intros Hop Hn w' fp.
  assert (Hv : domain_volumes (the_domain w) = [])
    by (apply List.length_zero_iff_nil; exact Hn).
  assert (Hc : domain_cells_from 0 (the_domain w) = []).
  { apply List.length_zero_iff_nil. now rewrite length_domain_cells_from. }
  assert (Hl : loop_events fp 0 (the_domain w) = []).
  { rewrite <- visits_events.
    assert (Hvis : domain_visits_from 0 (the_domain w) = []).
    { pose proof (visits_cells (the_domain w) 0) as E. rewrite Hc in E.
      destruct (domain_visits_from 0 (the_domain w)); [reflexivity | discriminate E]. }
    now rewrite Hvis. }
  assert (Ea : appended w w' volume_path = "").
  { unfold w'. now rewrite (run_appended_opens l0 w Hop), Hv. }
  assert (Ew : w' = mkWorld (w_host w)
                 (<[volume_path := file_content w volume_path]> (w_files w))
                 (w_unopenable w) (w_streams w)
                 (w_console w +:+ file_created +:+ file_closed)
                 (w_trace w ++ run_events fp (the_domain w)) (w_undefined w)).
  { unfold w'. rewrite exec_on_demand_calc, (run_opens l0 w Hop), Hv.
    cbn [volume_lines]. now rewrite sapp_empty_r. }
  repeat split.
  - unfold w'. rewrite (run_issued_opens l0 w Hop).
    unfold run_events. fold fp. now rewrite Hl.
  - exact Ea.
  - now rewrite Ea.
  - unfold w'. rewrite (run_content_opens l0 w Hop), Hv. apply sapp_empty_r.
  - now rewrite Ew.
  - now rewrite Ew.
  - now rewrite Ew.
Qed.

Lemma C5_no_cells_no_lines_witness :
  let w := world_of no_cells {[volume_path := "x" +:+ nl]} ∅ in
  let w' := exec (on_demand_calc clean_locals) w in
  appended w w' volume_path = "" /\ w_files w' = w_files w.
Proof.
  intros w w'.
  assert (Hop : opens w) by apply not_elem_of_empty.
  assert (Hn : domain_cells (the_domain w) = 0%nat) by reflexivity.
  destruct (C5_no_cells_no_lines clean_locals w Hop Hn) as (_ & Ha & _ & _ & Hf & _).
  split; [exact Ha |].
  fold w' in Hf. rewrite Hf. apply insert_id. reflexivity.
Defined.

(** C6.  What [vol_tot] (or [volume]) held at entry has no bearing on the
    outcome: two runs from the same world that differ only in the locals
    end in the same world, so the bytes appended and the console text are
    the same. *)
Theorem C6_total_never_observed (l0 l0' : Locals) (w : World) :
  let w1 := exec (on_demand_calc l0) w in
  let w2 := exec (on_demand_calc l0') w in
  w1 = w2 /\
  appended w w1 volume_path = appended w w2 volume_path /\
  printed w w1 = printed w w2.
Proof.
  intros w1 w2.
  assert (E : w1 = w2).
  { unfold w1, w2. rewrite !exec_on_demand_calc.
    destruct (opens_dec w) as [H|H].
    - now rewrite (run_opens l0 w H), (run_opens l0' w H).
    - now rewrite (run_fails l0 w H), (run_fails l0' w H). }
  now rewrite E.
Qed.

(** C7 (as amended).  Every run in which the file opens prints exactly
    two lines, "File created" and "File closed", whatever the domain; the
    first is printed right after [fopen] and before the loops, the second
    last, after [fclose]. *)
Theorem C7_two_console_lines (l0 : Locals) (w : World) :
  opens w ->
  let w' := exec (on_demand_calc l0) w in
  printed w w' = "File created" +:+ nl +:+ "File closed" +:+ nl /\
  w_console w' = w_console w +:+ printed w w' /\
  count_lines (printed w w') = 2%nat /\
  exists fp,
    issued w w'
    = ([EvGet_Domain 1; EvFopen volume_path "a" fp; EvPrintf file_created]
       ++ loop_events fp 0 (the_domain w)
       ++ [EvFclose fp; EvPrintf file_closed])%list.
Proof.
  intros Hop w'. unfold w'. rewrite (run_printed_opens l0 w Hop). repeat split.
  - apply (run_console_opens l0 w Hop).
  - eexists. apply (run_issued_opens l0 w Hop).
Qed.

Lemma C7_two_console_lines_witness :
  let w := world_of two_threads ∅ ∅ in
  printed w (exec (on_demand_calc clean_locals) w)
  = "File created" +:+ nl +:+ "File closed" +:+ nl.
Proof.
  intros w.
  assert (Hop : opens w) by apply not_elem_of_empty.
  exact (proj1 (C7_two_console_lines clean_locals w Hop)).
Defined.

(** C7 as stated fails when the file does not open: the run is stopped in
    the first stream call on the null pointer, before the second [printf]
    is reached, so "File closed" is not printed. *)
Lemma C7_counterexample :
  let w := world_of two_threads ∅ {[volume_path]} in
  let w' := exec (on_demand_calc clean_locals) w in
  ~ opens w /\
  printed w w' <> "File created" +:+ nl +:+ "File closed" +:+ nl /\
  ~ In (EvPrintf file_closed) (issued w w').
Proof.
  cbv zeta. repeat split.
  - intros H. apply H. cbn. set_solver.
  - vm_compute. discriminate.
  - vm_compute. intros H. decompose [or] H; discriminate || assumption.
Qed.

(** C8 (as amended).  A run in which the file opens terminates and
    returns on every domain (the loops recur on the chain of threads and
    on the number of cells left), the thread loop hands its body every
    position of the chain once, and the cells whose volume is read are the
    cells of the domain, thread after thread, each exactly once. *)
Theorem C8_every_cell_once (l0 : Locals) (w : World) :
  opens w ->
  let d := the_domain w in
  let w' := exec (on_demand_calc l0) w in
  let seen := visited (issued w w') in
  on_demand_calc l0 w = (Returned tt, w') /\
  eval (thread_loop_c d note_thread []) w = Returned (seq 0 (List.length d)) /\
  seen = domain_cells_from 0 d /\
  NoDup seen /\
  List.length seen = domain_cells d /\
  forall (p : nat) (c : cell_t),
    (p, c) ∈ seen <->
    exists th, d !! p = Some th /\ (c < List.length (thread_volume th))%nat.
Proof.
  intros Hop d w' seen.
  assert (Es : seen = domain_cells_from 0 d).
  { unfold seen, w'. rewrite (run_issued_opens l0 w Hop). apply visited_run_events. }
  repeat split.
  - apply (eval_on_demand_calc_opens l0 w Hop).
  - unfold eval, thread_loop_c. now rewrite thread_loop_positions.
  - exact Es.
  - rewrite Es. apply NoDup_domain_cells_from.
  - rewrite Es. apply length_domain_cells_from.
  - rewrite Es. intros H. apply list_elem_of_In, in_domain_cells_from in H.
    destruct H as (th & Hl & _ & Hc). rewrite Nat.sub_0_r in Hl. eauto.
  - rewrite Es. intros (th & Hl & Hc). apply list_elem_of_In, in_domain_cells_from.
    exists th. rewrite Nat.sub_0_r. repeat split; [exact Hl | lia | exact Hc].
Qed.

Lemma C8_every_cell_once_witness :
  let w := world_of two_threads ∅ ∅ in
  visited (issued w (exec (on_demand_calc clean_locals) w)) = [(0, 0); (0, 1); (1, 0)]%nat.
Proof.
  intros w.
  assert (Hop : opens w) by apply not_elem_of_empty.
  exact (proj1 (proj2 (proj2 (C8_every_cell_once clean_locals w Hop)))).
Defined.

(** C8 as stated fails when the file does not open: the run is stopped in
    the [fprintf] for the first cell and does not return; of the three
    cells of the domain only the first is visited. *)
Lemma C8_counterexample :
  let w := world_of two_threads ∅ {[volume_path]} in
  let w' := exec (on_demand_calc clean_locals) w in
  ~ opens w /\
  on_demand_calc clean_locals w = (Killed, w') /\
  domain_cells_from 0 (the_domain w) = [(0, 0); (0, 1); (1, 0)]%nat /\
  visited (issued w w') = [(0, 0)]%nat.
Proof.
  cbv zeta. repeat split.
  intros H. apply H. cbn. set_solver.
Qed.

(** C9.  A run leaves the solver's data alone: the host, and so the domain
    with its threads, cells and volumes, is the same afterwards, and so
    are the table of open streams, the set of paths that cannot be opened
    and every file other than the output file. *)
Theorem C9_host_untouched (l0 : Locals) (w : World) :
  let w' := exec (on_demand_calc l0) w in
  w_host w' = w_host w /\
  the_domain w' = the_domain w /\
  domain_volumes (the_domain w') = domain_volumes (the_domain w) /\
  w_streams w' = w_streams w /\
  w_unopenable w' = w_unopenable w /\
  forall p : string, p <> volume_path -> w_files w' !! p = w_files w !! p.
Proof.
  intros w'. unfold w', the_domain. rewrite run_host. repeat split.
  - apply run_streams.
  - apply run_unopenable.
  - intros p Hp. now apply run_other_files.
Qed.

(** C10.  The appended text is a function of the flattened sequence of
    volumes: two hosts whose domains yield the same sequence, however the
    cells are grouped into threads, lead from the same files to the same
    files. *)
Theorem C10_grouping_irrelevant (l1 l2 : Locals) (h1 h2 : Host) (w : World) :
  domain_volumes (host_domain h1 1) = domain_volumes (host_domain h2 1) ->
  let w1 := set_host h1 w in
  let w2 := set_host h2 w in
  appended w1 (exec (on_demand_calc l1) w1) volume_path
  = appended w2 (exec (on_demand_calc l2) w2) volume_path /\
  w_files (exec (on_demand_calc l1) w1) = w_files (exec (on_demand_calc l2) w2).
Proof.
  intros Hv w1 w2.
  assert (Hd1 : domain_volumes (the_domain w1) = domain_volumes (host_domain h1 1))
    by reflexivity.
  assert (Hd2 : domain_volumes (the_domain w2) = domain_volumes (host_domain h2 1))
    by reflexivity.
  destruct (opens_dec w) as [H|H].
  - assert (H1 : opens w1) by exact H. assert (H2 : opens w2) by exact H.
    rewrite (run_appended_opens l1 w1 H1), (run_appended_opens l2 w2 H2).
    rewrite !exec_on_demand_calc, (run_opens l1 w1 H1), (run_opens l2 w2 H2).
    rewrite Hd1, Hd2, Hv. split; reflexivity.
  - assert (H1 : ~ opens w1) by exact H. assert (H2 : ~ opens w2) by exact H.
    rewrite (run_appended_fails l1 w1 H1), (run_appended_fails l2 w2 H2).
    rewrite (run_files_fails l1 w1 H1), (run_files_fails l2 w2 H2).
    split; reflexivity.
Qed.

Lemma C10_grouping_irrelevant_witness :
  let w := world_of [] {[volume_path := "x" +:+ nl]} ∅ in
  w_files (exec (on_demand_calc clean_locals) (set_host (host_of grouped_a) w))
  = w_files (exec (on_demand_calc stale_locals) (set_host (host_of grouped_b) w)).
Proof.
  intros w.
  assert (Hv : domain_volumes (host_domain (host_of grouped_a) 1)
               = domain_volumes (host_domain (host_of grouped_b) 1)) by reflexivity.
  exact (proj2 (C10_grouping_irrelevant clean_locals stale_locals
                  (host_of grouped_a) (host_of grouped_b) w Hv)).
Defined.


(** * Further properties of the routine *)

(** ** Helpers *)

Lemma run_undefined_opens (l0 : Locals) (w : World) :
  opens w -> w_undefined (exec (on_demand_calc l0) w) = w_undefined w.
Proof. intros H. now rewrite exec_on_demand_calc, (run_opens l0 w H). Qed.

Lemma run_undefined_fails (l0 : Locals) (w : World) :
  ~ opens w -> w_undefined (exec (on_demand_calc l0) w) = true.
Proof. intros H. now rewrite exec_on_demand_calc, (run_fails l0 w H). Qed.

Lemma count_repeat_text (k : nat) (s : string) :
  count_lines (repeat_text k s) = (k * count_lines s)%nat.
Proof.
  induction k as [|k IH]; cbn [repeat_text]; [reflexivity |].
  rewrite count_lines_app, IH. lia.
Qed.

(** ** Properties *)

(** X1.  Whatever the volumes are, finite or not, a run in which the
    file opens appends one newline-terminated line per cell and nothing
    else: the appended text splits into exactly N lines, the i-th being
    the conversion of the i-th volume of the traversal. *)
Theorem X1_one_line_per_cell (l0 : Locals) (w : World) :
  opens w ->
  let w' := exec (on_demand_calc l0) w in
  let out := appended w w' volume_path in
  file_content w' volume_path = file_content w volume_path +:+ out /\
  split_lines out = (List.map format_20f_nl (domain_volumes (the_domain w)), "") /\
  count_lines out = domain_cells (the_domain w) /\
  List.length (split_lines out).1 = domain_cells (the_domain w).
Proof.
  intros Hop w' out.
  assert (Eout : out = volume_lines (domain_volumes (the_domain w)))
    by apply (run_appended_opens l0 w Hop).
  rewrite Eout, split_volume_lines, count_volume_lines. repeat split.
  - apply (run_content_opens l0 w Hop).
  - cbn [fst]. apply List.length_map.
Qed.

Lemma X1_one_line_per_cell_witness :
  let w := world_of odd_cells {[volume_path := "x" +:+ nl]} ∅ in
  let out := appended w (exec (on_demand_calc clean_locals) w) volume_path in
  split_lines out = (["-nan" +:+ nl; "inf" +:+ nl; "nan" +:+ nl], "") /\
  count_lines out = 3%nat.
Proof.
  intros w out.
  assert (Hop : opens w) by apply not_elem_of_empty.
  destruct (X1_one_line_per_cell clean_locals w Hop) as (_ & Hs & Hn & _).
  split; [exact Hs | exact Hn].
Defined.

(** X2.  The routine returns exactly when the file opens, and the locals
    at return are then: [vol_tot], its entry value with the volumes added
    to it one by one in traversal order (up to the sign of a NaN), and
    [volume], the volume of the last cell visited, or its entry value when
    the domain has no cell. *)
Theorem X2_locals_at_return (l0 : Locals) (w : World) :
  eval (on_demand_calc_locals l0) w
  = if decide (opens w)
    then Returned
           (mkLocals (List.last (domain_volumes (the_domain w)) (volume l0))
                     (fold_left real_add (domain_volumes (the_domain w)) (vol_tot l0)))
    else Killed.
Proof.
  unfold eval. destruct (decide (opens w)) as [H|H].
  - now rewrite (run_opens_full l0 w H).
  - now rewrite (run_fails_full l0 w H).
Qed.

(** X3.  From a world with no undefined call behind it, a run stays free
    of undefined stream calls exactly when [fopen] opens the file: then
    every [fprintf] and the [fclose] act on the open stream; otherwise
    the run is undefined even for a domain without cells, because of
    [fclose]. *)
Theorem X3_defined_iff_opens (l0 : Locals) (w : World) :
  w_undefined w = false ->
  (w_undefined (exec (on_demand_calc l0) w) = false <-> opens w).
Proof.
  intros Hu. destruct (opens_dec w) as [H|H].
  - rewrite (run_undefined_opens l0 w H), Hu. tauto.
  - rewrite (run_undefined_fails l0 w H). split; [discriminate | contradiction].
Qed.

Lemma X3_defined_iff_opens_witness :
  w_undefined (exec (on_demand_calc clean_locals) (world_of no_cells ∅ {[volume_path]}))
  = false <-> opens (world_of no_cells ∅ {[volume_path]}).
Proof.
  apply (X3_defined_iff_opens clean_locals (world_of no_cells ∅ {[volume_path]})).
  reflexivity.
Defined.

Lemma run_opens_again (l0 : Locals) (w : World) :
  opens w -> opens (exec (on_demand_calc l0) w).
Proof. unfold opens. now rewrite run_unopenable. Qed.

Lemma run_domain (l0 : Locals) (w : World) :
  the_domain (exec (on_demand_calc l0) w) = the_domain w.
Proof. unfold the_domain. now rewrite run_host. Qed.

Lemma runs_content (ls : list Locals) (w : World) :
  opens w ->
  file_content (runs ls w) volume_path
  = file_content w volume_path
    +:+ repeat_text (List.length ls) (volume_lines (domain_volumes (the_domain w))).
Proof.
  revert w. induction ls as [|l ls IH]; intros w Hop; cbn [runs List.length repeat_text].
  - now rewrite sapp_empty_r.
  - rewrite IH by now apply run_opens_again.
    now rewrite run_domain, (run_content_opens l w Hop), sapp_assoc.
Qed.

Lemma runs_console (ls : list Locals) (w : World) :
  opens w ->
  w_console (runs ls w)
  = w_console w +:+ repeat_text (List.length ls) (file_created +:+ file_closed).
Proof.
  revert w. induction ls as [|l ls IH]; intros w Hop; cbn [runs List.length repeat_text].
  - now rewrite sapp_empty_r.
  - rewrite IH by now apply run_opens_again.
    now rewrite (run_console_opens l w Hop), !sapp_assoc.
Qed.

Lemma runs_frame (ls : list Locals) (w : World) :
  w_host (runs ls w) = w_host w /\ w_streams (runs ls w) = w_streams w.
Proof.
  revert w. induction ls as [|l ls IH]; intros w; cbn [runs]; [tauto |].
  destruct (IH (exec (on_demand_calc l) w)) as [Hh Hs].
  now rewrite Hh, Hs, run_host, run_streams.
Qed.

(** X4.  Runs compose by concatenation: after k runs in a row in which
    the file opens, the file holds its prior content followed by k copies
    of the lines of the domain (k times N lines), the console has received
    k copies of the two fixed lines, and host and stream table are as
    before; the locals each run starts from play no part. *)
Theorem X4_runs_concatenate (ls : list Locals) (w : World) :
  opens w ->
  let k := List.length ls in
  let lines := volume_lines (domain_volumes (the_domain w)) in
  file_content (runs ls w) volume_path
  = file_content w volume_path +:+ repeat_text k lines /\
  count_lines (appended w (runs ls w) volume_path)
  = (k * domain_cells (the_domain w))%nat /\
  w_console (runs ls w)
  = w_console w +:+ repeat_text k (file_created +:+ file_closed) /\
  w_host (runs ls w) = w_host w /\
  w_streams (runs ls w) = w_streams w.
Proof.
  intros Hop k lines.
  pose proof (runs_content ls w Hop) as Hc. fold k lines in Hc.
  destruct (runs_frame ls w) as [Hh Hs].
  repeat split; try assumption.
  - unfold appended. rewrite Hc, string_drop_app, count_repeat_text.
    unfold lines. now rewrite count_volume_lines.
  - now apply runs_console.
Qed.

Lemma X4_runs_concatenate_witness :
  let w := world_of two_threads {[volume_path := "x" +:+ nl]} ∅ in
  count_lines (appended w (runs [clean_locals; stale_locals; clean_locals] w) volume_path)
  = 9%nat.
Proof.
  intros w.
  assert (Hop : opens w) by apply not_elem_of_empty.
  exact (proj1 (proj2 (X4_runs_concatenate [clean_locals; stale_locals; clean_locals] w Hop))).
Defined.

(** X5.  Only the domain with index 1 is dumped: two hosts that agree on
    that domain, whatever their other domains hold, lead to the same
    files, console text, calls, stream table and definedness. *)
Theorem X5_only_domain_one (l1 l2 : Locals) (h1 h2 : Host) (w : World) :
  host_domain h1 1 = host_domain h2 1 ->
  let w1 := exec (on_demand_calc l1) (set_host h1 w) in
  let w2 := exec (on_demand_calc l2) (set_host h2 w) in
  w_files w1 = w_files w2 /\
  w_console w1 = w_console w2 /\
  w_trace w1 = w_trace w2 /\
  w_streams w1 = w_streams w2 /\
  w_undefined w1 = w_undefined w2.
Proof.
  intros Hd w1 w2.
  assert (Hd' : the_domain (set_host h1 w) = the_domain (set_host h2 w)) by exact Hd.
  unfold w1, w2. rewrite !exec_on_demand_calc.
  destruct (opens_dec w) as [H|H].
  - rewrite (run_opens l1 (set_host h1 w) H), (run_opens l2 (set_host h2 w) H).
    cbn [w_files w_console w_trace w_streams w_undefined]. rewrite Hd'.
    repeat split; reflexivity.
  - rewrite (run_fails l1 (set_host h1 w) H), (run_fails l2 (set_host h2 w) H).
    cbn [w_files w_console w_trace w_streams w_undefined]. rewrite Hd'.
    repeat split; reflexivity.
Qed.

Lemma X5_only_domain_one_witness :
  let h1 := mkHost (fun id => if (id =? 1)%Z then two_threads else one_inf) in
  let h2 := mkHost (fun id => if (id =? 1)%Z then two_threads else no_cells) in
  let w := world_of [] ∅ ∅ in
  w_files (exec (on_demand_calc clean_locals) (set_host h1 w))
  = w_files (exec (on_demand_calc clean_locals) (set_host h2 w)).
Proof.
  intros h1 h2 w.
  assert (Hd : host_domain h1 1 = host_domain h2 1) by reflexivity.
  exact (proj1 (X5_only_domain_one clean_locals clean_locals h1 h2 w Hd)).
Defined.

(** ** Reading digits back *)

Ltac eval_digit_value :=
  repeat match goal with
  | |- context [digit_value ?a] =>
      let v := eval vm_compute in (digit_value a) in
      change (digit_value a) with v
  end.

Lemma digit_value_char (d : N) : (d < 10)%N -> digit_value (digit_char d) = d.
Proof.
  intros H. unfold digit_value, digit_char.
  rewrite N_ascii_embedding by lia. lia.
Qed.

Lemma read_dec_fixed (k : nat) (n : N) (acc : string) (a : N) :
  read_digits (dec_fixed k n acc) a
  = read_digits acc (a * 10 ^ N.of_nat k + n mod 10 ^ N.of_nat k)%N.
Proof.
  revert n acc a. induction k as [|k IH]; intros n acc a.
  - cbn [dec_fixed]. f_equal. change (10 ^ N.of_nat 0)%N with 1%N.
    rewrite N.mod_1_r. lia.
  - cbn [dec_fixed]. rewrite IH. cbn [read_digits]. f_equal.
    rewrite digit_value_char by (apply N.mod_lt; discriminate).
    rewrite Nat2N.inj_succ, N.pow_succ_r', (N.Div0.mod_mul_r n 10). lia.
Qed.

Lemma read_uint_acc (d : Decimal.uint) (p : positive) :
  read_digits (NilEmpty.string_of_uint d) (N.pos p) = N.pos (Pos.of_uint_acc d p).
Proof.
  revert p. induction d as [|d IH|d IH|d IH|d IH|d IH|d IH|d IH|d IH|d IH|d IH];
    intros p; cbn [NilEmpty.string_of_uint read_digits Pos.of_uint_acc];
    [reflexivity | rewrite <- IH; f_equal; eval_digit_value; lia ..].
Qed.

Lemma read_uint (d : Decimal.uint) :
  read_digits (NilEmpty.string_of_uint d) 0 = N.of_uint d.
Proof.
  unfold N.of_uint.
  induction d as [|d IH|d IH|d IH|d IH|d IH|d IH|d IH|d IH|d IH|d IH];
    cbn [NilEmpty.string_of_uint read_digits Pos.of_uint];
    [reflexivity | exact IH | rewrite <- read_uint_acc; f_equal ..].
Qed.

Lemma read_dec_int (n : N) : read_digits (dec_int n) 0 = n.
Proof.
  rewrite <- (DecimalN.Unsigned.of_to n) at 2.
  unfold dec_int, NilZero.string_of_uint.
  destruct (N.to_uint n); try apply read_uint; reflexivity.
Qed.

Lemma take_digits_app (ip : string) (c : ascii) (r : string) :
  all_digits ip = true -> is_digit c = false ->
  take_digits (ip +:+ String c r) = ip.
Proof.
  intros Hip Hc. induction ip as [|a ip IH]; simpl in *.
  - now rewrite Hc.
  - apply andb_true_iff in Hip as [Ha Hip]. rewrite Ha. f_equal. now apply IH.
Qed.

(** What the reader finds in a well-formed line. *)
Lemma read_signed (s : bool) (ip fp : string) :
  ip <> "" -> all_digits ip = true ->
  all_digits fp = true -> String.length fp = 20%nat ->
  read_f20 (sign_text s +:+ ip +:+ "." +:+ fp +:+ nl)
  = Some (s, (read_digits ip 0 * 10 ^ 20 + read_digits fp 0)%N).
Proof.
  intros Hne Hip Hfp Hlen.
  destruct ip as [|a ip]; [congruence |].
  assert (Hall := Hip). simpl in Hip. apply andb_true_iff in Hip as [Ha Hip].
  assert (Hminus : Ascii.eqb a "-" = false)
    by (destruct (Ascii.eqb_spec a "-") as [->|]; [discriminate Ha | reflexivity]).
  set (rest := "." +:+ fp +:+ nl).
  assert (Hstrip : strip_minus (sign_text s +:+ String a ip +:+ rest)
                   = String a ip +:+ String "." (fp +:+ nl)).
  { destruct s; simpl; [reflexivity | now rewrite Hminus]. }
  assert (Hneg : match sign_text s +:+ String a ip +:+ rest with
                 | String x _ => Ascii.eqb x "-"
                 | EmptyString => false
                 end = s).
  { destruct s; simpl; [reflexivity | exact Hminus]. }
  unfold read_f20. rewrite Hneg, Hstrip.
  rewrite take_digits_app, skip_digits_app by (assumption || reflexivity).
  rewrite Ascii.eqb_refl, <- Hlen, eat_digits_app, String.eqb_refl by assumption.
  change nl with (String newline "").
  rewrite take_digits_app by (assumption || reflexivity). reflexivity.
Qed.

Lemma read_format_finite (s : bool) (m : positive) (e : Z) :
  read_f20 (format_20f_nl (R_finite s m e)) = Some (s, scaled 20 m e).
Proof.
  unfold format_20f_nl, fmt_f. cbv zeta. rewrite !sapp_assoc.
  rewrite read_signed.
  - rewrite read_dec_int, read_dec_fixed. cbn [read_digits].
    change (N.of_nat 20) with 20%N. do 2 f_equal.
    rewrite N.Div0.mod_mod, N.mul_0_l, N.add_0_l.
    symmetry. rewrite N.mul_comm. apply N.div_mod'.
  - apply dec_int_nonempty.
  - apply dec_int_digits.
  - now apply dec_fixed_digits.
  - now rewrite dec_fixed_length.
Qed.

(** ** Rounding to the twentieth decimal place *)

Lemma even_to_N (q : Z) : (0 <= q)%Z -> N.even (Z.to_N q) = Z.even q.
Proof. destruct q; [reflexivity | reflexivity | lia]. Qed.

Lemma scaled_nearest (m : positive) (e : Z) :
  let err := Z.abs (Z.of_N (scaled 20 m e) * exact_den e - exact_num m e) in
  (err * 2 < exact_den e)%Z \/
  ((err * 2 = exact_den e)%Z /\ N.even (scaled 20 m e) = true).
Proof.
  unfold scaled, exact_num, exact_den. change (Z.of_nat 20) with 20%Z.
  assert (Hten : (0 < 10 ^ 20)%Z) by reflexivity.
  set (t := (Z.pos m * 10 ^ 20)%Z).
  assert (Ht : (0 < t)%Z) by (unfold t; lia).
  destruct (Z.leb_spec 0 e) as [He|He].
  - rewrite (Z.max_r 0 e), (Z.max_l 0 (- e)) by lia.
    assert (Hp : (0 < 2 ^ e)%Z) by (apply Z.pow_pos_nonneg; lia).
    rewrite Z2N.id by nia. cbv zeta. left.
    change (2 ^ 0)%Z with 1%Z. rewrite Z.mul_1_r, Z.sub_diag. reflexivity.
  - rewrite (Z.max_l 0 e), (Z.max_r 0 (- e)) by lia.
    change (2 ^ 0)%Z with 1%Z. rewrite Z.mul_1_r.
    set (den := (2 ^ (- e))%Z).
    assert (Hden : (0 < den)%Z) by (apply Z.pow_pos_nonneg; lia).
    pose proof (Z.div_mod t den ltac:(lia)) as Hdm.
    pose proof (Z.mod_pos_bound t den Hden) as Hr.
    assert (Hq : (0 <= t / den)%Z) by (apply Z.div_pos; lia).
    set (q := (t / den)%Z) in *. set (r := (t mod den)%Z) in *.
    cbv zeta.
    destruct (Z.ltb_spec (2 * r) den) as [H1|H1];
      [| destruct (Z.ltb_spec den (2 * r)) as [H2|H2];
         [| destruct (Z.even q) eqn:Hev]].
    + left. rewrite Z2N.id by lia. nia.
    + left. rewrite Z2N.id by lia. nia.
    + right. rewrite even_to_N by lia. rewrite Z2N.id by lia.
      split; [nia | exact Hev].
    + right. rewrite even_to_N by lia. rewrite Z2N.id by lia.
      split; [nia |]. rewrite Z.add_1_r, Z.even_succ, <- Z.negb_even, Hev.
      reflexivity.
Qed.

Lemma scaled_exact (m : positive) (e : Z) :
  (-20 <= e)%Z ->
  (Z.of_N (scaled 20 m e) * exact_den e = exact_num m e)%Z.
Proof.
  intros Hlo. unfold scaled, exact_num, exact_den. change (Z.of_nat 20) with 20%Z.
  destruct (Z.leb_spec 0 e) as [He|He].
  - rewrite (Z.max_r 0 e), (Z.max_l 0 (- e)) by lia.
    assert (Hp : (0 < 2 ^ e)%Z) by (apply Z.pow_pos_nonneg; lia).
    rewrite Z2N.id by nia. change (2 ^ 0)%Z with 1%Z. lia.
  - rewrite (Z.max_l 0 e), (Z.max_r 0 (- e)) by lia.
    change (2 ^ 0)%Z with 1%Z. rewrite Z.mul_1_r.
    set (den := (2 ^ (- e))%Z).
    assert (Hden : (0 < den)%Z) by (apply Z.pow_pos_nonneg; lia).
    assert (Hdiv : (Z.pos m * 10 ^ 20 = (Z.pos m * 5 ^ 20 * 2 ^ (20 + e)) * den)%Z).
    { unfold den. rewrite <- !Z.mul_assoc, <- Z.pow_add_r by lia.
      replace (20 + e + - e)%Z with 20%Z by lia. reflexivity. }
    set (c := (Z.pos m * 5 ^ 20 * 2 ^ (20 + e))%Z) in *.
    assert (Hc : (0 <= c)%Z).
    { unfold c. assert (0 < 2 ^ (20 + e))%Z by (apply Z.pow_pos_nonneg; lia).
      assert (0 < 5 ^ 20)%Z by reflexivity. nia. }
    rewrite Hdiv, Z.mod_mul, Z.div_mul by lia.
    destruct (Z.ltb_spec (2 * 0) den) as [_|H]; [| lia].
    rewrite Z2N.id by lia. reflexivity.
Qed.

Lemma scaled_tiny (m : positive) (e : Z) :
  (2 * Z.pos m * 10 ^ 20 <? 2 ^ (- e))%Z = true -> scaled 20 m e = 0%N.
Proof.
  intros H. apply Z.ltb_lt in H.
  assert (Hten : (0 < 10 ^ 20)%Z) by reflexivity.
  unfold scaled. change (Z.of_nat 20) with 20%Z.
  rewrite <- Z.mul_assoc in H.
  set (t := (Z.pos m * 10 ^ 20)%Z) in *.
  assert (Ht : (0 < t)%Z) by (unfold t; lia).
  destruct (Z.leb_spec 0 e) as [He|He].
  - exfalso. destruct (Z.eq_dec e 0%Z) as [->|Hne].
    + change (2 ^ (- 0))%Z with 1%Z in H. lia.
    + rewrite Z.pow_neg_r in H by lia. lia.
  - set (den := (2 ^ (- e))%Z) in *.
    rewrite (Z.div_small t den), (Z.mod_small t den) by lia.
    destruct (Z.ltb_spec (2 * t) den) as [_|H']; [reflexivity | lia].
Qed.

Lemma format_tiny (x : real) :
  is_tiny x = true -> format_20f_nl x = zero_line (sign_of x).
Proof.
  destruct x as [s|s|s|s m e]; cbn [is_tiny sign_of]; try discriminate.
  - intros _. destruct s; reflexivity.
  - intros H. unfold format_20f_nl, fmt_f. cbv zeta.
    rewrite (scaled_tiny m e H). destruct s; reflexivity.
Qed.

Lemma read_format (x : real) :
  is_finite x = true -> read_f20 (format_20f_nl x) = Some (sign_of x, units_20 x).
Proof.
  destruct x as [s|s|s|s m e]; cbn [is_finite sign_of units_20]; try discriminate;
    intros _.
  - destruct s; vm_compute; reflexivity.
  - apply read_format_finite.
Qed.

(** X6.  Twenty decimals do not hold small volumes: in a run in which
    the file opens over a domain whose volumes are all finite and below
    half a unit of the twentieth decimal place (0.5e-20), every line
    written is a zero, with the sign of the volume; the volumes cannot be
    told apart in the file. *)
Theorem X6_small_volumes_vanish (l0 : Locals) (w : World) :
  opens w ->
  Forall (fun v => is_tiny v = true) (domain_volumes (the_domain w)) ->
  let out := appended w (exec (on_demand_calc l0) w) volume_path in
  split_lines out
  = (List.map (fun v => zero_line (sign_of v)) (domain_volumes (the_domain w)), "").
Proof.
  intros Hop Htiny out. unfold out.
  rewrite (run_appended_opens l0 w Hop), split_volume_lines. f_equal.
  induction Htiny as [|v vs Hv _ IH]; [reflexivity |].
  cbn [List.map]. now rewrite (format_tiny v Hv), IH.
Qed.

Lemma X6_small_volumes_vanish_witness :
  let w := world_of tiny_cells ∅ ∅ in
  split_lines (appended w (exec (on_demand_calc clean_locals) w) volume_path)
  = ([zero_line false; zero_line false; zero_line true], "").
Proof.
  intros w.
  assert (Hop : opens w) by apply not_elem_of_empty.
  assert (Ht : Forall (fun v => is_tiny v = true) (domain_volumes (the_domain w)))
    by (repeat constructor).
  exact (X6_small_volumes_vanish clean_locals w Hop Ht).
Defined.

(** X7.  The file reads back: after a run in which the file opens over a
    domain of finite volumes, reading the appended lines one by one gives,
    for each cell in traversal order, the sign of its volume and its
    magnitude rounded to an integer number of units of the twentieth
    decimal place. *)
Theorem X7_lines_read_back (l0 : Locals) (w : World) :
  opens w ->
  Forall (fun v => is_finite v = true) (domain_volumes (the_domain w)) ->
  let out := appended w (exec (on_demand_calc l0) w) volume_path in
  List.map read_f20 (split_lines out).1
  = List.map (fun v => Some (sign_of v, units_20 v)) (domain_volumes (the_domain w)).
Proof.
  intros Hop Hfin out. unfold out.
  rewrite (run_appended_opens l0 w Hop), split_volume_lines. cbn [fst].
  induction Hfin as [|v vs Hv _ IH]; [reflexivity |].
  cbn [List.map]. now rewrite (read_format v Hv), IH.
Qed.

Lemma X7_lines_read_back_witness :
  let w := world_of two_threads ∅ ∅ in
  List.map read_f20
    (split_lines (appended w (exec (on_demand_calc clean_locals) w) volume_path)).1
  = [Some (false, 100000000000000000000%N); Some (false, 50000000000000000000%N);
     Some (false, 200000000000000000000%N)].
Proof.
  intros w.
  assert (Hop : opens w) by apply not_elem_of_empty.
  assert (Hfin : Forall (fun v => is_finite v = true) (domain_volumes (the_domain w)))
    by (repeat constructor).
  exact (X7_lines_read_back clean_locals w Hop Hfin).
Defined.

(** X8.  The line written for a finite volume m * 2^e carries that
    volume rounded to the nearest multiple of 1e-20, ties to the even
    multiple: the magnitude S read back from the line is off by at most
    half a unit, and by exactly half a unit only when S is even. *)
Theorem X8_line_is_nearest (s : bool) (m : positive) (e : Z) :
  let S := scaled 20 m e in
  let err := Z.abs (Z.of_N S * exact_den e - exact_num m e) in
  read_f20 (format_20f_nl (R_finite s m e)) = Some (s, S) /\
  ((err * 2 < exact_den e)%Z \/
   ((err * 2 = exact_den e)%Z /\ N.even S = true)).
Proof.
  intros S err. split; [apply read_format_finite | apply scaled_nearest].
Qed.

(** X9.  A finite volume m * 2^e with e >= -20, that is, a multiple of
    2^-20, is written exactly: the magnitude read back from its line is
    the volume itself in units of 1e-20. *)
Theorem X9_dyadic_volumes_exact (s : bool) (m : positive) (e : Z) :
  (-20 <= e)%Z ->
  read_f20 (format_20f_nl (R_finite s m e)) = Some (s, scaled 20 m e) /\
  (Z.of_N (scaled 20 m e) * exact_den e = exact_num m e)%Z.
Proof.
  intros He. split; [apply read_format_finite | now apply scaled_exact].
Qed.

Lemma X9_dyadic_volumes_exact_witness :
  read_f20 (format_20f_nl (R_finite true 3 (-2)))
  = Some (true, 75000000000000000000%N).
Proof.
  exact (proj1 (X9_dyadic_volumes_exact true 3 (-2) ltac:(lia))).
Defined.

Lemma format_shape_iff (x : real) : is_f20_line (format_20f_nl x) = is_finite x.
Proof.
  destruct (is_finite x) eqn:E; [now apply format_finite_shape |].
  destruct x as [s|s|s|s m e]; try discriminate E;
    try destruct s; vm_compute; reflexivity.
Qed.

(** X10.  In a run in which the file opens, a line has the shape sign,
    digits, point, twenty digits, newline exactly when the cell it was
    written for has a finite volume: the lines for infinite and NaN
    volumes are the only ones that break the format. *)
Theorem X10_shape_iff_finite (l0 : Locals) (w : World) :
  opens w ->
  let out := appended w (exec (on_demand_calc l0) w) volume_path in
  List.map is_f20_line (split_lines out).1
  = List.map is_finite (domain_volumes (the_domain w)).
Proof.
  intros Hop out. unfold out.
  rewrite (run_appended_opens l0 w Hop), split_volume_lines. cbn [fst].
  induction (domain_volumes (the_domain w)) as [|v vs IH]; [reflexivity |].
  cbn [List.map]. now rewrite format_shape_iff, IH.
Qed.

Lemma X10_shape_iff_finite_witness :
  let w := world_of [mkThread [r_one; R_nan false]; mkThread [R_infinity true; r_half]]
             ∅ ∅ in
  List.map is_f20_line
    (split_lines (appended w (exec (on_demand_calc clean_locals) w) volume_path)).1
  = [true; false; false; true].
Proof.
  intros w.
  assert (Hop : opens w) by apply not_elem_of_empty.
  exact (X10_shape_iff_finite clean_locals w Hop).
Defined.
